(** * Image math utilities: a verified model of [image_utils.py]

    The four functions of [src/image_utils.py] are embedded as Rocq
    functions over [Z] (Python's unbounded [int]) and [spec_float]
    (IEEE 754 binary64, Python's [float]), with Python's exceptions made
    explicit in a small error monad.

    Floating-point operations are the Standard Library's executable
    specification of binary64 arithmetic ([SFmul], [SFadd], [SFdiv],
    [binary_normalize] at precision 53 and maximal exponent 1024).  The
    second half of the file relates these algorithms to real-number
    rounding ([rnd]: round to nearest, ties to even) and derives the
    numerical properties of the utilities from that relation. *)

From Stdlib Require Import ZArith Reals Lra Lia Bool String List.
From Stdlib Require Import SpecFloat.
Import ListNotations.
Open Scope Z_scope.

(** ** Python runtime model *)

(** The exceptions the module can raise, each with its message. *)
Inductive exn : Type :=
  | ValueError (msg : string)
  | OverflowError (msg : string)
  | ZeroDivisionError (msg : string).

(** The outcome of evaluating a Python expression: a value or a raised
    exception. *)
Inductive result (A : Type) : Type :=
  | Ok (a : A)
  | Raise (e : exn).
Arguments Ok {A} a.
Arguments Raise {A} e.

Definition bind {A B : Type} (m : result A) (k : A -> result B) : result B :=
  match m with
  | Ok a => k a
  | Raise e => Raise e
  end.

Notation "x <- m ;; k" := (bind m (fun x => k))
  (at level 61, m at next level, right associativity).

(** Binary64: 53 bits of precision, exponents below 1024. *)
Definition prec : Z := 53.
Definition emax : Z := 1024.
Definition float : Type := spec_float.

Definition fmul : float -> float -> float := SFmul prec emax.
Definition fadd : float -> float -> float := SFadd prec emax.

(** An integer as an exact, unnormalised binary64 operand. *)
Definition Z2SF (z : Z) : float :=
  match z with
  | Z0 => S754_zero false
  | Zpos p => S754_finite false p 0
  | Zneg p => S754_finite true p 0
  end.

(** The correctly rounded quotient of two integers ([SFdiv] rounds the
    exact quotient of its operands' mantissas once). *)
Definition true_quotient (a b : Z) : float := SFdiv prec emax (Z2SF a) (Z2SF b).

(** Python's [a / b] on ints: the correctly rounded quotient;
    [ZeroDivisionError] on a zero divisor, [OverflowError] when the
    quotient is too large for a float. *)
Definition int_truediv (a b : Z) : result float :=
  if b =? 0 then Raise (ZeroDivisionError "division by zero")
  else match true_quotient a b with
       | S754_infinity _ =>
           Raise (OverflowError "integer division result too large for a float")
       | q => Ok q
       end.

(** The binary64 nearest to an integer (ties to even). *)
Definition to_float (z : Z) : float := binary_normalize prec emax z 0 false.

(** Python's implicit int-to-float conversion in mixed arithmetic:
    [OverflowError] when the integer is beyond the float range. *)
Definition float_of_int (z : Z) : result float :=
  match to_float z with
  | S754_infinity _ => Raise (OverflowError "int too large to convert to float")
  | f => Ok f
  end.

(** Truncation toward zero of a finite float (0 on the others). *)
Definition truncate (f : float) : Z :=
  match f with
  | S754_finite s m e => cond_Zopp s (Z.shiftl (Zpos m) e)
  | _ => 0
  end.

(** Python's [int(x)] on a float. *)
Definition int_of_float (f : float) : result Z :=
  match f with
  | S754_infinity _ => Raise (OverflowError "cannot convert float infinity to integer")
  | S754_nan => Raise (ValueError "cannot convert float NaN to integer")
  | _ => Ok (truncate f)
  end.

(** [n * x] with [n] an int and [x] a float. *)
Definition int_mul_float (n : Z) (x : float) : result float :=
  f <- float_of_int n ;; Ok (fmul f x).

(** [x * n] with [x] a float and [n] an int. *)
Definition float_mul_int (x : float) (n : Z) : result float :=
  f <- float_of_int n ;; Ok (fmul x f).

(** The decimal literals [0.21], [0.72] and [0.07]: the binary64 nearest
    to 21/100, 72/100 and 7/100. *)
Definition lit_0_21 : float := Eval vm_compute in true_quotient 21 100.
Definition lit_0_72 : float := Eval vm_compute in true_quotient 72 100.
Definition lit_0_07 : float := Eval vm_compute in true_quotient 7 100.

(** ** The functions of [image_utils.py] *)

Definition calculate_aspect_ratio (width height : Z) : result float :=
  if (width <=? 0) || (height <=? 0) then
    Raise (ValueError "Width and height must be positive integers")
  else int_truediv width height.

Definition resize_dimensions (width height max_size : Z) : result (Z * Z) :=
  if (width <=? 0) || (height <=? 0) || (max_size <=? 0) then
    Raise (ValueError "All dimensions must be positive integers")
  else if (width <=? max_size) && (height <=? max_size) then
    Ok (width, height)
  else
    scale <- (if width >? height then int_truediv max_size width
              else int_truediv max_size height) ;;
    fw <- int_mul_float width scale ;;
    new_width <- int_of_float fw ;;
    fh <- int_mul_float height scale ;;
    new_height <- int_of_float fh ;;
    Ok (new_width, new_height).

(** The loop over [[(r, 'r'), (g, 'g'), (b, 'b')]]. *)
Fixpoint check_channels (channels : list (Z * string)) : result unit :=
  match channels with
  | [] => Ok tt
  | (val, name) :: rest =>
      if negb ((0 <=? val) && (val <=? 255)) then
        Raise (ValueError (name ++ " must be between 0 and 255"))
      else check_channels rest
  end.

Definition rgb_to_grayscale (r g b : Z) : result Z :=
  _ <- check_channels [(r, "r"%string); (g, "g"%string); (b, "b"%string)] ;;
  tr <- float_mul_int lit_0_21 r ;;
  tg <- float_mul_int lit_0_72 g ;;
  let partial := fadd tr tg in
  tb <- float_mul_int lit_0_07 b ;;
  int_of_float (fadd partial tb).

(** A keyword argument left at its default is [None]. *)
Definition is_valid_resolution
    (width height : Z) (min_width min_height : option Z) : result bool :=
  let min_width := match min_width with Some v => v | None => 1 end in
  let min_height := match min_height with Some v => v | None => 1 end in
  Ok ((width >=? min_width) && (height >=? min_height)).

(** ** Closed forms used by the statements *)

(** The weighted sum [0.21*r + 0.72*g + 0.07*b], evaluated left to right
    in binary64. *)
Definition weighted_sum (r g b : Z) : float :=
  fadd (fadd (fmul lit_0_21 (to_float r)) (fmul lit_0_72 (to_float g)))
       (fmul lit_0_07 (to_float b)).

(** The scaling branch of [resize_dimensions] without its error plumbing. *)
Definition scaled_dimensions (width height max_size : Z) : Z * Z :=
  let scale := true_quotient max_size (if width >? height then width else height) in
  (truncate (fmul (to_float width) scale), truncate (fmul (to_float height) scale)).

(** The first integer that no longer converts to a finite float: the
    midpoint between the largest float and [2^1024]. *)
Definition float_limit : Z := 2 ^ 1024 - 2 ^ 970.

(** Both outcomes are values and the first is at most the second. *)
Definition result_le (x y : result Z) : Prop :=
  match x, y with
  | Ok a, Ok b => a <= b
  | _, _ => False
  end.

(** ** Real-number semantics of binary64 *)

Definition bpow (e : Z) : R := powerRZ 2 e.
Arguments bpow e : simpl never.

(** The real value of a float (0 on infinities and NaN). *)
Definition SF2R (f : float) : R :=
  match f with
  | S754_finite s m e => (IZR (cond_Zopp s (Z.pos m)) * bpow e)%R
  | _ => 0%R
  end.

(** Non-negative canonical finite floats. *)
Definition good (f : float) : bool :=
  match f with
  | S754_zero false => true
  | S754_finite false m e => bounded prec emax m e
  | _ => false
  end.

(** Non-negative reals representable with 53 bits above the smallest
    subnormal exponent. *)
Definition format (F : R) : Prop :=
  exists m e, F = (IZR m * bpow e)%R /\ 0 <= m < 2 ^ 53 /\ -1074 <= e.

(** [M] is the integer nearest to [y], ties to even. *)
Definition nearest_even (y : R) (M : Z) : Prop :=
  (IZR M - / 2 <= y <= IZR M + / 2)%R /\
  (y = (IZR M - / 2)%R \/ y = (IZR M + / 2)%R -> Z.even M = true).

(** [e] is the exponent of the binary64 grid around [x >= 0]. *)
Definition cexp (x : R) (e : Z) : Prop :=
  (0 <= x)%R /\ -1074 <= e /\ (x < bpow (e + 53))%R /\
  (-1074 < e -> (bpow (e + 52) <= x)%R).

(** [V] is [x >= 0] rounded to nearest-even on the binary64 grid, the
    exponent range taken unbounded above. *)
Definition rnd (x V : R) : Prop :=
  exists M e, cexp x e /\ nearest_even (x * bpow (- e)) M /\ V = (IZR M * bpow e)%R.

(** The float produced for the rounded mantissa [M] at exponent [e]. *)
Definition pack (M e : Z) : float :=
  match M with
  | Z0 => S754_zero false
  | Zpos m =>
      if M <? 2 ^ 53 then
        if e <=? 971 then S754_finite false m e else S754_infinity false
      else
        if e + 1 <=? 971 then S754_finite false (2 ^ 52)%positive (e + 1)
        else S754_infinity false
  | Zneg _ => S754_nan
  end.

(** A float [f] stands for the rounded real [V]: the finite float of that
    value, or [+inf] when [V] is out of range. *)
Definition denotes (f : float) (V : R) : Prop :=
  ((V < bpow 1024)%R /\ good f = true /\ SF2R f = V) \/
  ((bpow 1024 <= V)%R /\ f = S754_infinity false).

(** The position of [y] in the unit interval above the integer [m]. *)
Inductive inbetween (m : Z) (y : R) : location -> Prop :=
  | inb_exact : y = IZR m -> inbetween m y loc_Exact
  | inb_lt : (IZR m < y < IZR m + / 2)%R -> inbetween m y (loc_Inexact Lt)
  | inb_eq : y = (IZR m + / 2)%R -> inbetween m y (loc_Inexact Eq)
  | inb_gt : (IZR m + / 2 < y < IZR m + 1)%R -> inbetween m y (loc_Inexact Gt).

(** A shift record (mantissa, round bit, sticky bit) that tracks [y]. *)
Definition shr_inv (y : R) (mrs : shr_record) : Prop :=
  0 <= shr_m mrs /\ inbetween (shr_m mrs) y (loc_of_shr_record mrs).

(** The real computation behind [weighted_sum]: five roundings. *)
Definition gray_real (r g b : Z) (S : R) : Prop :=
  exists V1 V2 S1 V3,
    rnd (SF2R lit_0_21 * IZR r) V1 /\ rnd (SF2R lit_0_72 * IZR g) V2 /\
    rnd (V1 + V2) S1 /\ rnd (SF2R lit_0_07 * IZR b) V3 /\ rnd (S1 + V3) S.

(** ** Powers of two *)

(** Comparisons of injected integers. *)
Ltac izr :=
  match goal with
  | |- (IZR _ < IZR _)%R => apply IZR_lt; lia
  | |- (IZR _ <= IZR _)%R => apply IZR_le; lia
  | |- (0 < IZR _)%R => apply (IZR_lt 0); lia
  | |- (0 <= IZR _)%R => apply (IZR_le 0); lia
  | |- (1 <= IZR _)%R => apply (IZR_le 1); lia
  end.

Lemma bpow_gt_0 e : (0 < bpow e)%R.
Proof. apply powerRZ_lt; lra. Qed.

Lemma bpow_add a b : bpow (a + b) = (bpow a * bpow b)%R.
Proof. apply powerRZ_add; lra. Qed.

Lemma bpow_IZR e : 0 <= e -> bpow e = IZR (2 ^ e).
Proof.
  intros He. unfold bpow. destruct e as [|p|p]; [reflexivity| |lia].
  change (2 ^ Z.pos p) with (Z.pow_pos 2 p). now rewrite Zpower_pos_powerRZ.
Qed.

Lemma bpow_opp e : bpow (- e) = (/ bpow e)%R.
Proof. apply powerRZ_neg'. Qed.

Lemma bpow_0 : bpow 0 = 1%R.
Proof. reflexivity. Qed.

Lemma bpow_ge_1 e : 0 <= e -> (1 <= bpow e)%R.
Proof.
  intros He. rewrite bpow_IZR by assumption. apply IZR_le.
  assert (0 < 2 ^ e) by (apply Z.pow_pos_nonneg; lia). lia.
Qed.

Lemma bpow_le a b : a <= b -> (bpow a <= bpow b)%R.
Proof.
  intros Hab. replace b with (a + (b - a)) by lia. rewrite bpow_add.
  pose proof (bpow_gt_0 a). pose proof (bpow_ge_1 (b - a) ltac:(lia)). nra.
Qed.

Lemma bpow_lt a b : a < b -> (bpow a < bpow b)%R.
Proof.
  intros Hab. replace b with (a + (b - a)) by lia. rewrite bpow_add.
  pose proof (bpow_gt_0 a).
  assert (2 <= bpow (b - a))%R.
  { rewrite bpow_IZR by lia. apply IZR_le.
    replace (b - a) with (1 + (b - a - 1)) by lia. rewrite Z.pow_add_r by lia.
    assert (0 < 2 ^ (b - a - 1)) by (apply Z.pow_pos_nonneg; lia). lia. }
  nra.
Qed.

Lemma bpow_cancel a : (bpow a * bpow (- a) = 1)%R.
Proof. rewrite <- bpow_add. now replace (a + - a) with 0 by lia. Qed.

(** ** Binary digits *)

Lemma digits2_size p : digits2_pos p = Pos.size p.
Proof. induction p; simpl; congruence. Qed.

Lemma digits2_bounds p : 2 ^ (Z.pos (digits2_pos p) - 1) <= Z.pos p < 2 ^ Z.pos (digits2_pos p).
Proof.
  rewrite digits2_size. split.
  - pose proof (Pos.size_le p) as H.
    assert (Z.pos (2 ^ Pos.size p) <= Z.pos p~0) by exact H.
    rewrite Pos2Z.inj_pow in H0.
    replace (Z.pos (Pos.size p)) with (1 + (Z.pos (Pos.size p) - 1)) in H0 by lia.
    rewrite Z.pow_add_r in H0 by lia. lia.
  - pose proof (Pos.size_gt p) as H.
    assert (Z.pos p < Z.pos (2 ^ Pos.size p)) by exact H.
    now rewrite Pos2Z.inj_pow in H0.
Qed.

(** ** Shifting right with round and sticky bits

    [shr_1] halves the tracked real: the mantissa loses its last bit to
    the round bit, which joins the sticky bit. *)

Lemma inbetween_bounds m y l : inbetween m y l -> (IZR m <= y < IZR m + 1)%R.
Proof. destruct 1; lra. Qed.

Lemma shr_record_of_loc_inv m y l :
  0 <= m -> inbetween m y l -> shr_inv y (shr_record_of_loc m l).
Proof.
  intros Hm H. split.
  - now destruct l as [|[]].
  - now destruct l as [|[]].
Qed.

Lemma IZR_xO p : IZR (Z.pos p~0) = (2 * IZR (Z.pos p))%R.
Proof. now rewrite Pos2Z.inj_xO, mult_IZR. Qed.

Lemma IZR_xI p : IZR (Z.pos p~1) = (2 * IZR (Z.pos p) + 1)%R.
Proof. now rewrite Pos2Z.inj_xI, plus_IZR, mult_IZR. Qed.

(** One shift halves the tracked value. *)
Lemma shr_1_inv y mrs : shr_inv y mrs -> shr_inv (y / 2) (shr_1 mrs).
Proof.
  destruct mrs as [m r s]. intros [Hm H]. simpl in Hm.
  destruct m as [|p|p]; [| |lia].
  - split; [destruct r, s; simpl; lia|].
    destruct r, s; simpl in *; inversion H; constructor; lra.
  - split; [destruct p, r, s; simpl; lia|].
    destruct p as [p|p|]; destruct r, s; simpl in *; inversion H;
      try rewrite IZR_xO in *; try rewrite IZR_xI in *; constructor; lra.
Qed.

(** [n] shifts divide it by [2^n]. *)
Lemma iter_shr_1_inv n : forall y mrs,
  shr_inv y mrs -> shr_inv (y * bpow (- Z.pos n)) (iter_pos shr_1 n mrs).
Proof.
  assert (H1 : forall y, (y / 2 = y * bpow (-1))%R).
  { intros y. unfold bpow. simpl. lra. }
  induction n as [n IH|n IH|]; intros y mrs H; cbn [iter_pos].
  - apply shr_1_inv in H. apply IH in H. apply IH in H.
    replace (y * bpow (- Z.pos n~1))%R
      with (y / 2 * bpow (- Z.pos n) * bpow (- Z.pos n))%R; [exact H|].
    rewrite H1. replace (- Z.pos n~1) with (-1 + (- Z.pos n + - Z.pos n)) by lia.
    rewrite !bpow_add. lra.
  - apply IH in H. apply IH in H.
    replace (y * bpow (- Z.pos n~0))%R
      with (y * bpow (- Z.pos n) * bpow (- Z.pos n))%R; [exact H|].
    replace (- Z.pos n~0) with (- Z.pos n + - Z.pos n) by lia.
    rewrite !bpow_add. lra.
  - apply shr_1_inv in H. now rewrite <- H1.
Qed.

Lemma shr_inv_shift x mrs e n :
  0 <= n -> shr_inv (x * bpow (- e)) mrs ->
  shr_inv (x * bpow (- (e + n))) (fst (shr mrs e n)) /\ snd (shr mrs e n) = e + n.
Proof.
  intros Hn H. destruct n as [|p|p]; [| |lia]; simpl.
  - now rewrite Z.add_0_r.
  - split; [|reflexivity]. apply (iter_shr_1_inv p) in H.
    replace (- (e + Z.pos p)) with (- e + - Z.pos p) by lia.
    rewrite bpow_add. now rewrite <- Rmult_assoc.
Qed.

(** ** One rounding step

    [binary_round_aux] shifts the mantissa to the grid exponent, rounds
    to nearest-even by the location, and shifts once more when the
    rounded mantissa has reached [2^53]. *)

Lemma fexp_eq k : fexp prec emax k = Z.max (k - 53) (-1074).
Proof. reflexivity. Qed.

(** Rounding by the location picks the nearest integer, ties to even. *)
Lemma round_nearest_even_spec y mrs :
  shr_inv y mrs ->
  nearest_even y (round_nearest_even (shr_m mrs) (loc_of_shr_record mrs)) /\
  0 <= round_nearest_even (shr_m mrs) (loc_of_shr_record mrs).
Proof.
  intros [Hm H]. destruct mrs as [m r s]. simpl in Hm.
  unfold nearest_even.
  destruct r, s; cbn [shr_m loc_of_shr_record round_nearest_even] in *; inversion H as [E|E|E|E].
  - rewrite plus_IZR. repeat split; try lra; try lia.
  - destruct (Z.even m) eqn:Ev.
    + repeat split; try lra; try lia. intros _. exact Ev.
    + rewrite plus_IZR. repeat split; try lra; try lia. intros _.
      replace (m + 1) with (Z.succ m) by lia. rewrite Z.even_succ.
      rewrite <- Z.negb_even, Ev. reflexivity.
  - repeat split; try lra; try lia.
  - repeat split; try lra; try lia.
Qed.

Lemma Zdigits2_bounds m : 0 < m -> 2 ^ (Zdigits2 m - 1) <= m < 2 ^ Zdigits2 m.
Proof. destruct m as [|p|p]; try lia. intros _. apply digits2_bounds. Qed.

Lemma Zdigits2_nonneg m : 0 <= Zdigits2 m.
Proof. destruct m; simpl; lia. Qed.

Lemma pow2_lt_inv a b : 0 <= b -> 2 ^ a < 2 ^ b -> a < b.
Proof.
  intros Hb H. destruct (Z_lt_le_dec a b) as [|Hle]; [assumption|].
  pose proof (Z.pow_le_mono_r 2 b a ltac:(lia) Hle). lia.
Qed.

Lemma bpow_lt_inv a b : (bpow a < bpow b)%R -> a < b.
Proof.
  intros H. destruct (Z_lt_le_dec a b) as [|Hle]; [assumption|].
  pose proof (bpow_le b a Hle). lra.
Qed.

Lemma mul_bpow_lt x a b : (x * bpow (- a) < bpow b)%R <-> (x < bpow (a + b))%R.
Proof.
  rewrite bpow_add. pose proof (bpow_gt_0 a). pose proof (bpow_gt_0 b).
  pose proof (bpow_cancel a). pose proof (bpow_gt_0 (- a)). split; intros; nra.
Qed.

Lemma mul_bpow_le x a b : (bpow b <= x * bpow (- a))%R <-> (bpow (a + b) <= x)%R.
Proof.
  rewrite bpow_add. pose proof (bpow_gt_0 a). pose proof (bpow_gt_0 b).
  pose proof (bpow_cancel a). pose proof (bpow_gt_0 (- a)). split; intros; nra.
Qed.

(** The rounding step is correct: a mantissa [mx] at exponent [ex] with
    location [lx] that brackets [x], with digits to spare, rounds to the
    nearest-even mantissa on the grid of [x]. *)
Lemma binary_round_aux_correct x mx ex lx :
  0 <= mx -> inbetween mx (x * bpow (- ex)) lx ->
  ex <= fexp prec emax (Zdigits2 mx + ex) ->
  exists M e, cexp x e /\ nearest_even (x * bpow (- e)) M /\
              binary_round_aux prec emax false mx ex lx = pack M e.
Proof.
  intros Hmx Hin Hex.
  set (d := Zdigits2 mx) in *. set (e := fexp prec emax (d + ex)) in *.
  assert (He : e = Z.max (d + ex - 53) (-1074)) by reflexivity.
  pose proof (Zdigits2_nonneg mx) as Hd. fold d in Hd.
  (* first shift *)
  unfold binary_round_aux, shr_fexp. fold d. fold e.
  pose proof (shr_record_of_loc_inv _ _ _ Hmx Hin) as H0.
  destruct (shr_inv_shift x _ ex (e - ex) ltac:(lia) H0) as [H1 H2].
  replace (ex + (e - ex)) with e in * by lia.
  destruct (shr (shr_record_of_loc mx lx) ex (e - ex)) as [mrs' e'] eqn:Hs.
  cbn [fst snd] in H1, H2. subst e'.
  destruct (round_nearest_even_spec _ _ H1) as [HN HM0].
  set (M := round_nearest_even (shr_m mrs') (loc_of_shr_record mrs')) in *.
  (* canonical exponent *)
  pose proof (inbetween_bounds _ _ _ Hin) as [Hlo Hhi].
  assert (Hx0 : (0 <= x)%R).
  { pose proof (bpow_gt_0 ex). pose proof (bpow_cancel ex). pose proof (bpow_gt_0 (- ex)).
    assert (0 <= IZR mx)%R by (apply IZR_le; lia). nra. }
  assert (Hup : (x * bpow (- ex) < bpow d)%R).
  { rewrite (bpow_IZR d) by lia. eapply Rlt_le_trans; [exact Hhi|].
    rewrite <- plus_IZR. apply IZR_le.
    destruct (Z.eq_dec mx 0) as [->|Hnz]; [subst d; simpl; lia|].
    pose proof (Zdigits2_bounds mx ltac:(lia)). fold d in H. lia. }
  assert (Hce : cexp x e).
  { repeat split; [assumption|lia| |].
    - apply (proj1 (mul_bpow_lt x ex d)) in Hup.
      eapply Rlt_le_trans; [exact Hup|]. apply bpow_le. lia.
    - intros Hgt. assert (Hmx' : 0 < mx).
      { destruct (Z.eq_dec mx 0) as [E|]; [|lia]. exfalso.
        assert (d = 0) by (unfold d; rewrite E; reflexivity). lia. }
      pose proof (Zdigits2_bounds mx Hmx') as [Hb _]. fold d in Hb.
      assert (bpow (d - 1) <= x * bpow (- ex))%R.
      { rewrite (bpow_IZR (d - 1)) by lia.
        eapply Rle_trans; [|exact Hlo]. now apply IZR_le. }
      apply (proj1 (mul_bpow_le x ex (d - 1))) in H.
      replace (e + 52) with (ex + (d - 1)) by lia. exact H. }
  exists M, e. split; [exact Hce|]. split; [exact HN|].
  (* second shift *)
  assert (HM53 : M <= 2 ^ 53).
  { destruct Hce as (_ & _ & Hlt & _). destruct HN as [[HN1 _] _].
    assert (x * bpow (- e) < bpow 53)%R by (apply (proj2 (mul_bpow_lt x e 53)); exact Hlt).
    rewrite (bpow_IZR 53) in H by lia.
    assert (IZR M < IZR (2 ^ 53 + 1))%R by (rewrite plus_IZR; lra).
    apply lt_IZR in H2. lia. }
  destruct (Z.eq_dec M 0) as [EM|NM].
  - rewrite EM. cbn [Zdigits2 shr_record_of_loc]. rewrite fexp_eq.
    destruct (Z.max (0 + e - 53) (-1074) - e) eqn:En; try lia; reflexivity.
  - destruct (Z.eq_dec M (2 ^ 53)) as [EM|NM'].
    + rewrite EM. replace (Zdigits2 (2 ^ 53)) with 54 by reflexivity. rewrite fexp_eq.
      replace (Z.max (54 + e - 53) (-1074) - e) with 1 by lia.
      reflexivity.
    + destruct M as [|m|m]; try lia.
      pose proof (digits2_bounds m) as [Hb _].
      assert (Z.pos (digits2_pos m) - 1 < 53) by (apply pow2_lt_inv; lia).
      cbn [Zdigits2 shr_record_of_loc]. rewrite fexp_eq.
      destruct (Z.max (Z.pos (digits2_pos m) + e - 53) (-1074) - e) eqn:En; try lia;
        cbn [shr shr_m pack]; destruct (Z.ltb_spec (Z.pos m) (2 ^ 53)); try lia; reflexivity.
Qed.

(** ** Properties of round-to-nearest-even

    [rnd] is a monotone partial function that fixes every representable
    number; in the normal range its relative error is at most [2^-53]. *)

Lemma cexp_mono x x' e e' : (x <= x')%R -> cexp x e -> cexp x' e' -> e <= e'.
Proof.
  intros Hx (_ & _ & _ & Hlo) (_ & He' & Hup & _).
  destruct (Z_le_gt_dec e e') as [|Hgt]; [assumption|].
  assert (bpow (e + 52) < bpow (e' + 53))%R by (specialize (Hlo ltac:(lia)); lra).
  apply bpow_lt_inv in H. lia.
Qed.

(** Nearest-even integer rounding is monotone: two ties cannot cross. *)
Lemma nearest_even_mono y y' M M' :
  (y <= y')%R -> nearest_even y M -> nearest_even y' M' -> M <= M'.
Proof.
  intros Hy [[H1 H2] H3] [[H1' H2'] H3'].
  destruct (Z_le_gt_dec M M') as [|Hgt]; [assumption|exfalso].
  assert (IZR M' + 1 <= IZR M)%R by (rewrite <- plus_IZR; apply IZR_le; lia).
  assert (E1 : y = (IZR M - / 2)%R) by lra.
  assert (E2 : y' = (IZR M' + / 2)%R) by lra.
  assert (IZR M = IZR (M' + 1))%R by (rewrite plus_IZR; lra).
  apply eq_IZR in H0. subst M.
  specialize (H3 (or_introl E1)). specialize (H3' (or_intror E2)).
  replace (M' + 1) with (Z.succ M') in H3 by lia. rewrite Z.even_succ in H3.
  rewrite <- Z.negb_even, H3' in H3. discriminate.
Qed.

Lemma nearest_even_bounds x e M :
  cexp x e -> nearest_even (x * bpow (- e)) M ->
  0 <= M <= 2 ^ 53 /\ (-1074 < e -> 2 ^ 52 <= M).
Proof.
  intros (Hx & He & Hup & Hlo) [[H1 H2] _].
  pose proof (bpow_gt_0 (- e)).
  assert (x * bpow (- e) < bpow 53)%R by (apply (proj2 (mul_bpow_lt x e 53)); exact Hup).
  rewrite (bpow_IZR 53) in H0 by lia.
  repeat split.
  - assert (IZR (-1) < IZR M)%R by (pose proof (Rmult_le_pos _ _ Hx (Rlt_le _ _ H)); lra).
    apply lt_IZR in H3. lia.
  - assert (IZR M < IZR (2 ^ 53 + 1))%R by (rewrite plus_IZR; lra).
    apply lt_IZR in H3. lia.
  - intros Hgt. specialize (Hlo Hgt).
    apply (proj2 (mul_bpow_le x e 52)) in Hlo. rewrite (bpow_IZR 52) in Hlo by lia.
    assert (IZR (2 ^ 52 - 1) < IZR M)%R by (rewrite minus_IZR; lra).
    apply lt_IZR in H3. lia.
Qed.

(** Rounding is monotone. *)
Lemma rnd_mono x x' V V' : (x <= x')%R -> rnd x V -> rnd x' V' -> (V <= V')%R.
Proof.
  intros Hx (M & e & Hc & Hn & ->) (M' & e' & Hc' & Hn' & ->).
  pose proof (cexp_mono _ _ _ _ Hx Hc Hc') as Hee.
  destruct (Z.eq_dec e e') as [<-|Hne].
  - assert (M <= M').
    { apply (nearest_even_mono (x * bpow (- e)) (x' * bpow (- e))); try assumption.
      apply Rmult_le_compat_r; [apply Rlt_le, bpow_gt_0|assumption]. }
    apply Rmult_le_compat_r; [apply Rlt_le, bpow_gt_0|now apply IZR_le].
  - destruct (nearest_even_bounds _ _ _ Hc Hn) as [[_ HM] _].
    destruct (nearest_even_bounds _ _ _ Hc' Hn') as [_ HM'].
    specialize (HM' ltac:(destruct Hc as (_ & ? & _); lia)).
    apply IZR_le in HM, HM'. rewrite <- bpow_IZR in HM, HM' by lia.
    pose proof (bpow_gt_0 e). pose proof (bpow_gt_0 e').
    pose proof (bpow_le (e + 53) (e' + 52) ltac:(lia)) as Hb.
    rewrite !bpow_add in Hb.
    pose proof (bpow_gt_0 53). pose proof (bpow_gt_0 52).
    apply Rle_trans with (bpow e * bpow 53)%R; [nra|].
    apply Rle_trans with (bpow e' * bpow 52)%R; [assumption|nra].
Qed.

(** Rounding is a function. *)
Lemma rnd_fun x V V' : rnd x V -> rnd x V' -> V = V'.
Proof.
  intros H H'. pose proof (rnd_mono x x V V' ltac:(lra) H H').
  pose proof (rnd_mono x x V' V ltac:(lra) H' H). lra.
Qed.

(** Representable numbers round to themselves. *)
Lemma rnd_format F : format F -> rnd F F.
Proof.
  intros (m & e0 & -> & Hm & He0).
  destruct (Z.eq_dec m 0) as [->|Hnz].
  - exists 0, (-1074). rewrite !Rmult_0_l. repeat split; try lra; try lia.
    all: try apply bpow_gt_0; try reflexivity.
  - pose proof (Zdigits2_bounds m ltac:(lia)) as [Hd1 Hd2].
    set (d := Zdigits2 m) in *.
    assert (Hd : 0 < d <= 53).
    { split; [unfold d; destruct m; simpl; lia|].
      assert (d - 1 < 53) by (apply pow2_lt_inv; lia). lia. }
    set (e := Z.max (d + e0 - 53) (-1074)).
    assert (Hee : e <= e0) by lia.
    exists (m * 2 ^ (e0 - e)), e.
    assert (Hv : (IZR m * bpow e0 * bpow (- e) = IZR (m * 2 ^ (e0 - e)))%R).
    { rewrite mult_IZR, <- bpow_IZR by lia. rewrite Rmult_assoc, <- bpow_add.
      now replace (e0 + - e) with (e0 - e) by lia. }
    pose proof (bpow_gt_0 e0).
    apply IZR_le in Hd1. apply IZR_lt in Hd2. rewrite <- bpow_IZR in Hd1, Hd2 by lia.
    repeat split.
    + apply Rmult_le_pos; [apply IZR_le; lia|lra].
    + lia.
    + apply Rlt_le_trans with (bpow d * bpow e0)%R; [nra|].
      rewrite <- bpow_add. apply bpow_le. lia.
    + intros Hgt. apply Rle_trans with (bpow (d - 1) * bpow e0)%R; [|nra].
      rewrite <- bpow_add. apply bpow_le. lia.
    + rewrite Hv. lra.
    + rewrite Hv. lra.
    + rewrite Hv. lra.
    + rewrite <- Hv. rewrite Rmult_assoc, <- bpow_add.
      replace (- e + e) with 0 by lia. rewrite bpow_0. lra.
Qed.

Lemma rnd_id F V : format F -> rnd F V -> V = F.
Proof. intros HF HV. exact (rnd_fun F V F HV (rnd_format F HF)). Qed.

Lemma rnd_le_format x V F : rnd x V -> format F -> (x <= F)%R -> (V <= F)%R.
Proof. intros HV HF Hx. exact (rnd_mono x F V F Hx HV (rnd_format F HF)). Qed.

Lemma rnd_ge_format x V F : rnd x V -> format F -> (F <= x)%R -> (F <= V)%R.
Proof. intros HV HF Hx. exact (rnd_mono F x F V Hx (rnd_format F HF) HV). Qed.

(** In the normal range the relative error is at most [2^-53]. *)
Lemma rnd_err x V :
  rnd x V -> (bpow (-1022) <= x)%R ->
  (V - x <= x * bpow (-53) /\ x - V <= x * bpow (-53))%R.
Proof.
  intros (M & e & Hc & [[H1 H2] _] & ->) Hx.
  assert (Hu : (bpow e * / 2 <= x * bpow (-53))%R).
  { destruct Hc as (_ & He & _ & Hlo).
    replace (/ 2)%R with (bpow (-1)) by (unfold bpow; simpl; lra).
    rewrite <- bpow_add. pose proof (bpow_gt_0 (-53)).
    destruct (Z.eq_dec e (-1074)) as [->|Hne].
    - replace (-1074 + -1) with (-1022 + -53) by lia. rewrite bpow_add. nra.
    - specialize (Hlo ltac:(lia)).
      replace (e + -1) with ((e + 52) + -53) by lia. rewrite bpow_add. nra. }
  pose proof (bpow_gt_0 e). pose proof (bpow_cancel e).
  assert (E : x = (x * bpow (- e) * bpow e)%R).
  { rewrite Rmult_assoc, (Rmult_comm (bpow (- e))), H0. lra. }
  set (y := (x * bpow (- e))%R) in *.
  split; rewrite E at 1; nra.
Qed.

(** ** Packing the rounded mantissa *)

Lemma digits2_pos_eq m k : 0 < k -> 2 ^ (k - 1) <= Z.pos m < 2 ^ k -> Z.pos (digits2_pos m) = k.
Proof.
  intros Hk [H1 H2]. pose proof (digits2_bounds m) as [H3 H4].
  assert (k - 1 < Z.pos (digits2_pos m)) by (apply pow2_lt_inv; lia).
  assert (Z.pos (digits2_pos m) - 1 < k) by (apply pow2_lt_inv; lia).
  lia.
Qed.

Lemma bounded_intro m e :
  -1074 <= e <= 971 -> Z.pos m < 2 ^ 53 -> (-1074 < e -> 2 ^ 52 <= Z.pos m) ->
  bounded prec emax m e = true.
Proof.
  intros He Hm Hn. unfold bounded, canonical_mantissa.
  apply andb_true_intro. split; [|apply Z.leb_le; unfold emax, prec; lia].
  apply Z.eqb_eq. rewrite fexp_eq.
  destruct (Z.eq_dec e (-1074)) as [->|Hne].
  - pose proof (digits2_bounds m) as [H3 H4].
    assert (Z.pos (digits2_pos m) - 1 < 53) by (apply pow2_lt_inv; lia). lia.
  - rewrite (digits2_pos_eq m 53); try lia.
Qed.

Lemma bounded_elim m e :
  bounded prec emax m e = true ->
  -1074 <= e <= 971 /\ Z.pos m < 2 ^ 53 /\ (-1074 < e -> 2 ^ 52 <= Z.pos m).
Proof.
  unfold bounded, canonical_mantissa. intros H. apply andb_prop in H as [H1 H2].
  apply Z.eqb_eq in H1. apply Z.leb_le in H2. rewrite fexp_eq in H1.
  unfold emax, prec in H2. pose proof (digits2_bounds m) as [H3 H4].
  set (d := Z.pos (digits2_pos m)) in *. assert (0 < d) by (unfold d; lia).
  split; [lia|]. split.
  - assert (2 ^ d <= 2 ^ 53) by (apply Z.pow_le_mono_r; lia). lia.
  - intros Hgt. assert (d = 53) by lia. rewrite H0 in H3. exact H3.
Qed.

(** The packed float is the finite canonical float of value [M * 2^e],
    or [+inf] when that value reaches [2^1024]. *)
Lemma pack_spec x e M :
  cexp x e -> nearest_even (x * bpow (- e)) M -> denotes (pack M e) (IZR M * bpow e).
Proof.
  intros Hc Hn. destruct (nearest_even_bounds _ _ _ Hc Hn) as [[HM0 HM1] HM2].
  assert (He : -1074 <= e) by apply Hc.
  pose proof (bpow_gt_0 e) as Hbe.
  assert (B53 : bpow 53 = IZR (2 ^ 53)) by (apply bpow_IZR; lia).
  assert (B52 : bpow 52 = IZR (2 ^ 52)) by (apply bpow_IZR; lia).
  unfold pack. destruct M as [|m|m]; [| |lia].
  - left. rewrite Rmult_0_l. repeat split. apply bpow_gt_0.
  - destruct (Z.ltb_spec (Z.pos m) (2 ^ 53)) as [Hlt|Hge].
    + destruct (Z.leb_spec e 971) as [Hle|Hgt].
      * left. split; [|split].
        -- apply Rlt_le_trans with (bpow 53 * bpow e)%R.
           ++ apply Rmult_lt_compat_r; [assumption|]. rewrite B53. now apply IZR_lt.
           ++ rewrite <- bpow_add. apply bpow_le. lia.
        -- apply bounded_intro; [lia|assumption|assumption].
        -- reflexivity.
      * right. split; [|reflexivity].
        specialize (HM2 ltac:(lia)). apply IZR_le in HM2. rewrite <- B52 in HM2.
        apply Rle_trans with (bpow 52 * bpow e)%R.
        -- rewrite <- bpow_add. apply bpow_le. lia.
        -- apply Rmult_le_compat_r; [lra|assumption].
    + assert (EM : Z.pos m = 2 ^ 53) by lia. rewrite EM, <- B53, <- bpow_add.
      destruct (Z.leb_spec (e + 1) 971) as [Hle|Hgt].
      * left. split; [|split].
        -- apply bpow_lt. lia.
        -- apply bounded_intro; [lia|reflexivity|intros _; apply Z.le_refl].
        -- cbn [SF2R cond_Zopp]. change (Z.pos (2 ^ 52)) with (2 ^ 52).
           rewrite <- B52, <- bpow_add. f_equal. lia.
      * right. split; [|reflexivity]. apply bpow_le. lia.
Qed.

Lemma round_aux_denotes x mx ex lx :
  0 <= mx -> inbetween mx (x * bpow (- ex)) lx ->
  ex <= fexp prec emax (Zdigits2 mx + ex) ->
  exists V, rnd x V /\ denotes (binary_round_aux prec emax false mx ex lx) V.
Proof.
  intros H1 H2 H3.
  destruct (binary_round_aux_correct x mx ex lx H1 H2 H3) as (M & e & Hc & Hn & ->).
  exists (IZR M * bpow e)%R. split.
  - exists M, e. auto.
  - eapply pack_spec; eassumption.
Qed.

Lemma good_format f : good f = true -> format (SF2R f) /\ (SF2R f < bpow 1024)%R.
Proof.
  destruct f as [[]|[]| |[] m e]; simpl; try discriminate.
  - intros _. split; [|apply bpow_gt_0]. exists 0, 0. rewrite Rmult_0_l. repeat split; lia.
  - intros H. apply bounded_elim in H as (He & Hm & _). split.
    + exists (Z.pos m), e. repeat split; lia.
    + apply Rlt_le_trans with (bpow 53 * bpow e)%R.
      * apply Rmult_lt_compat_r; [apply bpow_gt_0|]. rewrite (bpow_IZR 53) by lia. now apply IZR_lt.
      * rewrite <- bpow_add. apply bpow_le. lia.
Qed.

Lemma denotes_finite f V : denotes f V -> (V < bpow 1024)%R -> good f = true /\ SF2R f = V.
Proof. intros [(_ & H1 & H2)|[H _]] HV; [auto|lra]. Qed.

(** ** Rounding an exact value, multiplication and addition *)

Lemma iter_xO m d : Z.pos (Pos.iter xO m d) = Z.pos m * 2 ^ Z.pos d.
Proof.
  induction d as [|d IH] using Pos.peano_ind.
  - simpl. lia.
  - rewrite Pos.iter_succ, Pos2Z.inj_xO, IH, Pos2Z.inj_succ, Z.pow_succ_r by lia. lia.
Qed.

Lemma digits_iter_xO m d :
  Z.pos (digits2_pos (Pos.iter xO m d)) = Z.pos (digits2_pos m) + Z.pos d.
Proof.
  induction d as [|d IH] using Pos.peano_ind.
  - simpl. lia.
  - rewrite Pos.iter_succ. cbn [digits2_pos]. rewrite Pos2Z.inj_succ, IH. lia.
Qed.

Lemma inbetween_exact_mul m e e' :
  e' <= e -> inbetween (m * 2 ^ (e - e')) (IZR m * bpow e * bpow (- e')) loc_Exact.
Proof.
  intros H. constructor. rewrite mult_IZR, <- bpow_IZR by lia.
  rewrite Rmult_assoc, <- bpow_add. now replace (e + - e') with (e - e') by lia.
Qed.

(** [binary_round] rounds the exact value [m * 2^e]. *)
Lemma binary_round_spec m e :
  exists V, rnd (IZR (Z.pos m) * bpow e) V /\ denotes (binary_round prec emax false m e) V.
Proof.
  unfold binary_round, shl_align.
  set (e' := fexp prec emax (Z.pos (digits2_pos m) + e)).
  destruct (e' - e) as [|p|p] eqn:Hd.
  - apply round_aux_denotes; [lia| |cbn [Zdigits2]; fold e'; lia].
    pose proof (inbetween_exact_mul (Z.pos m) e e ltac:(lia)) as H.
    now rewrite Z.sub_diag, Z.mul_1_r in H.
  - apply round_aux_denotes; [lia| |cbn [Zdigits2]; fold e'; lia].
    pose proof (inbetween_exact_mul (Z.pos m) e e ltac:(lia)) as H.
    now rewrite Z.sub_diag, Z.mul_1_r in H.
  - apply round_aux_denotes; [lia| |].
    + rewrite iter_xO. replace (Z.pos p) with (e - e') by lia.
      apply inbetween_exact_mul. lia.
    + cbn [Zdigits2]. rewrite digits_iter_xO.
      replace (Z.pos (digits2_pos m) + Z.pos p + e') with (Z.pos (digits2_pos m) + e) by lia.
      fold e'. lia.
Qed.

Lemma rnd_zero : rnd 0 0.
Proof.
  replace 0%R with (IZR 0 * bpow 0)%R at 2 by (simpl; lra).
  replace 0%R with (IZR 0 * bpow 0)%R at 1 by (simpl; lra).
  apply rnd_format. exists 0, 0. repeat split; lia.
Qed.

Lemma denotes_good f : good f = true -> denotes f (SF2R f).
Proof. intros H. left. destruct (good_format f H). auto. Qed.

Lemma rnd_good f : good f = true -> rnd (SF2R f) (SF2R f).
Proof. intros H. apply rnd_format. now apply good_format. Qed.

Lemma denotes_zero : denotes (S754_zero false) 0.
Proof. left. repeat split. apply bpow_gt_0. Qed.

(** The product of two finite non-negative floats is the rounded real
    product. *)
Lemma SFmul_spec a b :
  good a = true -> good b = true ->
  exists V, rnd (SF2R a * SF2R b) V /\ denotes (SFmul prec emax a b) V.
Proof.
  intros Ha Hb.
  destruct a as [[]|[]| |[] ma ea]; try discriminate;
    destruct b as [[]|[]| |[] mb eb]; try discriminate; cbn [SFmul xorb SF2R cond_Zopp].
  - exists 0%R. rewrite Rmult_0_l. split; [apply rnd_zero|apply denotes_zero].
  - exists 0%R. rewrite Rmult_0_l. split; [apply rnd_zero|apply denotes_zero].
  - exists 0%R. rewrite Rmult_0_r. split; [apply rnd_zero|apply denotes_zero].
  - simpl in Ha, Hb. apply bounded_elim in Ha as (Hea & Hma & Hna).
    apply bounded_elim in Hb as (Heb & Hmb & Hnb).
    apply round_aux_denotes; [lia| |].
    + constructor. rewrite Pos2Z.inj_mul, mult_IZR.
      replace (- (ea + eb)) with (- ea + - eb) by lia. rewrite bpow_add.
      pose proof (bpow_cancel ea). pose proof (bpow_cancel eb).
      set (A := bpow ea) in *. set (B := bpow eb) in *.
      set (A' := bpow (- ea)) in *. set (B' := bpow (- eb)) in *.
      transitivity (IZR (Z.pos ma) * IZR (Z.pos mb) * (A * A') * (B * B'))%R; [ring|].
      rewrite H, H0. ring.
    + cbn [Zdigits2]. rewrite fexp_eq.
      pose proof (digits2_bounds (ma * mb)) as [_ Hd].
      set (D := Z.pos (digits2_pos (ma * mb))) in *.
      destruct (Z.eq_dec ea (-1074)) as [Ea|Ea]; destruct (Z.eq_dec eb (-1074)) as [Eb|Eb]; try lia.
      * specialize (Hnb ltac:(lia)). rewrite Pos2Z.inj_mul in Hd.
        assert (52 < D) by (apply pow2_lt_inv; [unfold D|]; nia). lia.
      * specialize (Hna ltac:(lia)). rewrite Pos2Z.inj_mul in Hd.
        assert (52 < D) by (apply pow2_lt_inv; [unfold D|]; nia). lia.
      * specialize (Hna ltac:(lia)). rewrite Pos2Z.inj_mul in Hd.
        assert (52 < D) by (apply pow2_lt_inv; [unfold D|]; nia). lia.
Qed.

Lemma shl_align_value m e e' :
  e' <= e -> (IZR (Z.pos (fst (shl_align m e e'))) * bpow e' = IZR (Z.pos m) * bpow e)%R.
Proof.
  intros H. unfold shl_align. destruct (e' - e) as [|p|p] eqn:Hd; cbn [fst].
  - now replace e' with e by lia.
  - lia.
  - rewrite iter_xO, mult_IZR, <- bpow_IZR by lia. rewrite Rmult_assoc, <- bpow_add.
    now replace (Z.pos p + e') with e by lia.
Qed.

(** Likewise for the sum. *)
Lemma SFadd_spec a b :
  good a = true -> good b = true ->
  exists V, rnd (SF2R a + SF2R b) V /\ denotes (SFadd prec emax a b) V.
Proof.
  intros Ha Hb.
  destruct a as [[]|[]| |[] ma ea]; try discriminate;
    destruct b as [[]|[]| |[] mb eb]; try discriminate.
  - exists 0%R. cbn [SFadd SF2R]. rewrite Rplus_0_l. split; [apply rnd_zero|apply denotes_zero].
  - exists (SF2R (S754_finite false mb eb)). cbn [SFadd]. change (SF2R (S754_zero false)) with 0%R.
    rewrite Rplus_0_l. split; [now apply rnd_good|now apply denotes_good].
  - exists (SF2R (S754_finite false ma ea)). cbn [SFadd]. change (SF2R (S754_zero false)) with 0%R.
    rewrite Rplus_0_r. split; [now apply rnd_good|now apply denotes_good].
  - cbn [SFadd cond_Zopp SF2R Z.add binary_normalize].
    set (ez := Z.min ea eb).
    rewrite <- (shl_align_value ma ea ez), <- (shl_align_value mb eb ez) by lia.
    rewrite <- Rmult_plus_distr_r, <- plus_IZR.
    apply binary_round_spec.
Qed.

(** ** Division of integers, conversion and truncation *)

(** The location computed from a remainder [r] of a division by [m2]. *)
Lemma new_location_spec q m2 r :
  0 < m2 -> 0 <= r < m2 ->
  inbetween q (IZR q + IZR r / IZR m2) (new_location m2 r).
Proof.
  intros Hm Hr.
  assert (Hm' : (0 < IZR m2)%R) by (apply IZR_lt; lia).
  set (t := (IZR r / IZR m2)%R).
  assert (Ht : (t * IZR m2 = IZR r)%R) by (unfold t; field; lra).
  assert (Hc : forall c, (IZR (c * r) = IZR c * t * IZR m2)%R).
  { intros c. rewrite mult_IZR, <- Ht. ring. }
  assert (Hz : r = 0 -> t = 0%R) by (intros ->; unfold t; field; lra).
  assert (Hr0 : (0 <= IZR r)%R) by (apply IZR_le; lia).
  assert (Hr1 : (IZR r < IZR m2)%R) by (apply IZR_lt; lia).
  unfold new_location. destruct (Z.even m2) eqn:Ev.
  - unfold new_location_even. destruct (Z.eqb_spec r 0) as [E0|Hnz].
    + constructor. rewrite (Hz E0). lra.
    + assert (0 < IZR r)%R by (apply IZR_lt; lia).
      destruct (Z.compare_spec (2 * r) m2) as [E|E|E]; constructor.
      * apply (f_equal IZR) in E. rewrite Hc in E. nra.
      * apply IZR_lt in E. rewrite Hc in E. nra.
      * apply IZR_lt in E. rewrite Hc in E. nra.
  - unfold new_location_odd. destruct (Z.eqb_spec r 0) as [E0|Hnz].
    + constructor. rewrite (Hz E0). lra.
    + assert (0 < IZR r)%R by (apply IZR_lt; lia).
      assert (Ho : Z.odd m2 = true) by (rewrite <- Z.negb_even, Ev; reflexivity).
      apply Z.odd_spec in Ho as [k Hk].
      destruct (Z.compare_spec (2 * r + 1) m2) as [E|E|E]; constructor.
      * assert (E' : 2 * r < m2) by lia. apply IZR_lt in E'. rewrite Hc in E'. nra.
      * assert (E' : 2 * r < m2) by lia. apply IZR_lt in E'. rewrite Hc in E'. nra.
      * assert (E' : m2 < 2 * r) by lia. apply IZR_lt in E'. rewrite Hc in E'. nra.
Qed.

Lemma Zdigits2_ge q k : 0 <= k -> 2 ^ k <= q -> k < Zdigits2 q.
Proof.
  intros Hk Hq. assert (0 < q) by (pose proof (Z.pow_pos_nonneg 2 k); lia).
  pose proof (Zdigits2_bounds q H) as [_ Hd].
  apply pow2_lt_inv; [apply Zdigits2_nonneg|lia].
Qed.

(** The quotient mantissa brackets the exact quotient of two positive
    integers of any size and has digits to spare. *)
Lemma SFdiv_core_spec m1 m2 :
  0 < m1 -> 0 < m2 ->
  let '(q, e, l) := SFdiv_core_binary prec emax m1 0 m2 0 in
  0 <= q /\ inbetween q (IZR m1 / IZR m2 * bpow (- e)) l /\
  e <= fexp prec emax (Zdigits2 q + e).
Proof.
  intros H1 H2. unfold SFdiv_core_binary.
  rewrite !Z.add_0_r, Z.sub_diag. rewrite fexp_eq.
  set (d1 := Zdigits2 m1). set (d2 := Zdigits2 m2).
  set (e := Z.min (Z.max (d1 - d2 - 53) (-1074)) 0).
  set (s := 0 - e).
  assert (Hs : 0 <= s) by lia.
  set (m' := match s with Z.pos _ => Z.shiftl m1 s | 0 => m1 | Z.neg _ => 0 end).
  assert (Hm' : m' = m1 * 2 ^ s).
  { unfold m'. destruct s as [|p|p] eqn:Es; [lia| |lia].
    now rewrite Z.shiftl_mul_pow2 by lia. }
  pose proof (Z.pow_pos_nonneg 2 s ltac:(lia) Hs) as Hp.
  pose proof (Z_div_mod m' m2 ltac:(lia)) as Hdm.
  destruct (Z.div_eucl m' m2) as [q r]. destruct Hdm as [Hq Hr].
  assert (Hq0 : 0 <= q) by nia.
  split; [assumption|]. split.
  - replace (IZR m1 / IZR m2 * bpow (- e))%R with (IZR q + IZR r / IZR m2)%R.
    + apply new_location_spec; lia.
    + replace (- e) with s by lia. rewrite (bpow_IZR s) by lia.
      assert (0 < IZR m2)%R by (apply IZR_lt; lia).
      apply (f_equal IZR) in Hq. rewrite Hm', plus_IZR, !mult_IZR in Hq.
      field_simplify_eq; [|lra]. lra.
  - rewrite fexp_eq. destruct (Z.eq_dec e (-1074)) as [E|E]; [lia|].
    assert (2 ^ 52 <= q).
    { pose proof (Zdigits2_bounds m1 H1) as [Hd1 _].
      pose proof (Zdigits2_bounds m2 H2) as [_ Hd2]. fold d1 in Hd1. fold d2 in Hd2.
      assert (0 < d1) by (unfold d1; destruct m1; simpl; lia).
      assert (0 < d2) by (unfold d2; destruct m2; simpl; lia).
      assert (2 ^ (d2 + 52) <= m').
      { rewrite Hm'. apply Z.le_trans with (2 ^ (d1 - 1) * 2 ^ s); [|nia].
        rewrite <- Z.pow_add_r by lia. apply Z.pow_le_mono_r; lia. }
      rewrite Z.pow_add_r in H3 by lia.
      apply Z.div_le_lower_bound with (a := m') (b := m2) (q := 2 ^ 52) in H2 as Hdiv; [|nia].
      assert (m' / m2 = q); [|lia].
      symmetry. apply Z.div_unique with r; [lia|lia]. }
    pose proof (Zdigits2_ge q 52 ltac:(lia) H). lia.
Qed.

(** Hence [true_quotient] is the rounded exact quotient. *)
Lemma SFdiv_int_spec a b :
  0 < a -> 0 < b ->
  exists V, rnd (IZR a / IZR b) V /\ denotes (SFdiv prec emax (Z2SF a) (Z2SF b)) V.
Proof.
  intros Ha Hb. destruct a as [|pa|pa]; try lia. destruct b as [|pb|pb]; try lia.
  cbn [Z2SF SFdiv xorb].
  pose proof (SFdiv_core_spec (Z.pos pa) (Z.pos pb) Ha Hb) as H.
  destruct (SFdiv_core_binary prec emax (Z.pos pa) 0 (Z.pos pb) 0) as [[q e] l].
  destruct H as (H1 & H2 & H3). now apply round_aux_denotes.
Qed.

(** The conversion of a non-negative integer is its rounding. *)
Lemma normalize_spec z :
  0 <= z -> exists V, rnd (IZR z) V /\ denotes (binary_normalize prec emax z 0 false) V.
Proof.
  intros Hz. destruct z as [|p|p]; [| |lia]; cbn [binary_normalize].
  - exists 0%R. split; [apply rnd_zero|apply denotes_zero].
  - destruct (binary_round_spec p 0) as (V & H1 & H2). exists V. split; [|assumption].
    now rewrite bpow_0, Rmult_1_r in H1.
Qed.

(** Truncating a positive float takes the integer part of its value. *)
Lemma shiftl_floor m e :
  (IZR (Z.shiftl (Z.pos m) e) <= IZR (Z.pos m) * bpow e < IZR (Z.shiftl (Z.pos m) e) + 1)%R.
Proof.
  destruct (Z_le_gt_dec 0 e) as [He|He].
  - rewrite Z.shiftl_mul_pow2, mult_IZR, <- bpow_IZR by lia. lra.
  - rewrite Z.shiftl_div_pow2 by lia.
    replace (bpow e) with (/ bpow (- e))%R by (rewrite <- bpow_opp; f_equal; lia).
    rewrite (bpow_IZR (- e)) by lia.
    set (k := 2 ^ (- e)). assert (Hk : 0 < k) by (apply Z.pow_pos_nonneg; lia).
    clearbody k.
    pose proof (Z_div_mod (Z.pos m) k ltac:(lia)) as Hdm.
    unfold Z.div. destruct (Z.div_eucl (Z.pos m) k) as [q r]. destruct Hdm as [Hq Hr].
    assert (0 < IZR k)%R by (apply IZR_lt; lia).
    assert (Hr1 : (0 <= IZR r)%R) by (apply IZR_le; lia).
    assert (Hr2 : (IZR r < IZR k)%R) by (apply IZR_lt; lia).
    apply (f_equal IZR) in Hq. rewrite plus_IZR, mult_IZR in Hq. rewrite Hq.
    set (t := (IZR r / IZR k)%R).
    assert (Ht : (t * IZR k = IZR r)%R) by (unfold t; field; lra).
    replace ((IZR k * IZR q + IZR r) * / IZR k)%R with (IZR q + t)%R by (unfold t; field; lra).
    split; nra.
Qed.

(** ** Finite results of the operations *)

Lemma good_nonneg f : good f = true -> (0 <= SF2R f)%R.
Proof.
  destruct f as [[]|[]| |[] m e]; simpl; try discriminate; intros _; try lra.
  apply Rmult_le_pos; [apply IZR_le; lia|apply Rlt_le, bpow_gt_0].
Qed.

Lemma good_not_special f : good f = true -> int_of_float f = Ok (truncate f).
Proof. destruct f as [[]|[]| |[] m e]; simpl; try discriminate; reflexivity. Qed.

Lemma truncate_floor f :
  good f = true -> (IZR (truncate f) <= SF2R f < IZR (truncate f) + 1)%R.
Proof.
  destruct f as [[]|[]| |[] m e]; simpl; try discriminate; intros _; try lra.
  apply shiftl_floor.
Qed.

Lemma truncate_nonneg f : good f = true -> 0 <= truncate f.
Proof.
  intros H. pose proof (truncate_floor f H) as [_ H1]. pose proof (good_nonneg f H).
  assert (IZR (-1) < IZR (truncate f))%R by lra. apply lt_IZR in H2. lia.
Qed.

Lemma truncate_mono f f' :
  good f = true -> good f' = true -> (SF2R f <= SF2R f')%R -> truncate f <= truncate f'.
Proof.
  intros H H' Hle. pose proof (truncate_floor f H) as [H1 _].
  pose proof (truncate_floor f' H') as [_ H2].
  assert (IZR (truncate f) < IZR (truncate f' + 1))%R by (rewrite plus_IZR; lra).
  apply lt_IZR in H0. lia.
Qed.

Lemma truncate_le f n :
  good f = true -> (SF2R f < IZR n + 1)%R -> truncate f <= n.
Proof.
  intros H Hle. pose proof (truncate_floor f H) as [H1 _].
  assert (IZR (truncate f) < IZR (n + 1))%R by (rewrite plus_IZR; lra).
  apply lt_IZR in H0. lia.
Qed.

Lemma truncate_ge f n :
  good f = true -> (IZR n <= SF2R f)%R -> n <= truncate f.
Proof.
  intros H Hle. pose proof (truncate_floor f H) as [_ H1].
  assert (IZR n < IZR (truncate f + 1))%R by (rewrite plus_IZR; lra).
  apply lt_IZR in H0. lia.
Qed.

Lemma IZR_float_limit : IZR float_limit = (bpow 1024 - bpow 970)%R.
Proof. unfold float_limit. now rewrite minus_IZR, <- !bpow_IZR by lia. Qed.

(** Below the midpoint between the largest float and [2^1024] rounding
    stays in range; from the midpoint on it does not. *)
Lemma rnd_lt_limit x V : rnd x V -> (x < bpow 1024 - bpow 970)%R -> (V < bpow 1024)%R.
Proof.
  intros (M & e & Hc & Hn & ->) Hx.
  destruct (nearest_even_bounds _ _ _ Hc Hn) as [[HM0 HM1] _].
  destruct Hc as (Hx0 & He & Hup & Hlo). destruct Hn as [[Hn1 _] _].
  pose proof (bpow_gt_0 e) as Hbe.
  destruct (Z_le_gt_dec e 970) as [Hle|Hgt].
  - apply Rle_lt_trans with (bpow 53 * bpow e)%R.
    + apply Rmult_le_compat_r; [lra|]. rewrite (bpow_IZR 53) by lia. now apply IZR_le.
    + rewrite <- bpow_add. apply bpow_lt. lia.
  - destruct (Z.eq_dec e 971) as [->|Hne].
    + assert (Hy : (x * bpow (- 971) < bpow 53 - / 2)%R).
      { replace (/ 2)%R with (bpow (-1)) by (unfold bpow; simpl; lra).
        replace (bpow 53) with (bpow 1024 * bpow (- 971))%R
          by (rewrite <- bpow_add; f_equal).
        replace (bpow (-1)) with (bpow 970 * bpow (- 971))%R
          by (rewrite <- bpow_add; f_equal).
        rewrite <- Rmult_minus_distr_r. apply Rmult_lt_compat_r; [apply bpow_gt_0|lra]. }
      rewrite (bpow_IZR 53) in Hy by lia.
      change (- (971)) with (-971) in Hn1.
      assert (IZR M < IZR (2 ^ 53))%R by lra. apply lt_IZR in H.
      apply Rlt_le_trans with (bpow 53 * bpow 971)%R.
      * apply Rmult_lt_compat_r; [assumption|]. rewrite (bpow_IZR 53) by lia. now apply IZR_lt.
      * rewrite <- bpow_add. apply bpow_le. lia.
    + specialize (Hlo ltac:(lia)).
      pose proof (bpow_le 1024 (e + 52) ltac:(lia)). pose proof (bpow_gt_0 970). lra.
Qed.

Lemma rnd_ge_limit x V : rnd x V -> (bpow 1024 - bpow 970 <= x)%R -> (bpow 1024 <= V)%R.
Proof.
  intros HV Hx.
  assert (HL : rnd (bpow 1024 - bpow 970) (bpow 1024)).
  { exists (2 ^ 53), 971.
    assert (E : ((bpow 1024 - bpow 970) * bpow (- 971) = IZR (2 ^ 53) - / 2)%R).
    { rewrite <- (bpow_IZR 53) by lia.
      replace (/ 2)%R with (bpow (-1)) by (unfold bpow; simpl; lra).
      rewrite Rmult_minus_distr_r, <- !bpow_add. reflexivity. }
    pose proof (bpow_lt 970 1023 ltac:(lia)). pose proof (bpow_gt_0 970).
    assert (bpow 1024 = 2 * bpow 1023)%R.
    { replace 1024 with (1 + 1023) by lia. rewrite bpow_add.
      replace (bpow 1) with 2%R by (unfold bpow; simpl; lra). reflexivity. }
    change (- (971)) with (-971).
    repeat split.
    - lra.
    - lia.
    - change (971 + 53) with 1024. lra.
    - intros _. change (971 + 52) with 1023. lra.
    - rewrite E. lra.
    - rewrite E. lra.
    - rewrite <- (bpow_IZR 53), <- bpow_add by lia. reflexivity. }
  exact (rnd_mono _ _ _ _ Hx HL HV).
Qed.

Lemma denotes_overflow f V : denotes f V -> (bpow 1024 <= V)%R -> f = S754_infinity false.
Proof. intros [(H & _)|[_ H]] HV; [lra|assumption]. Qed.

Lemma to_float_spec z :
  0 <= z < float_limit ->
  good (to_float z) = true /\ rnd (IZR z) (SF2R (to_float z)) /\
  float_of_int z = Ok (to_float z).
Proof.
  intros [Hz Hl]. destruct (normalize_spec z Hz) as (V & HV & HD).
  apply IZR_lt in Hl. rewrite IZR_float_limit in Hl.
  pose proof (rnd_lt_limit _ _ HV Hl) as HVlt.
  destruct (denotes_finite _ _ HD HVlt) as [Hg E]. fold (to_float z) in Hg, E.
  split; [assumption|]. split; [now rewrite E|].
  unfold float_of_int. destruct (to_float z) as [[]|[]| |[] m e]; try discriminate; reflexivity.
Qed.

Lemma format_IZR z : 0 <= z < 2 ^ 53 -> format (IZR z).
Proof. intros H. exists z, 0. rewrite bpow_0, Rmult_1_r. repeat split; lia. Qed.

Lemma to_float_exact z :
  0 <= z < 2 ^ 53 ->
  good (to_float z) = true /\ SF2R (to_float z) = IZR z /\ float_of_int z = Ok (to_float z).
Proof.
  intros Hz.
  assert (Hl : 0 <= z < float_limit) by (unfold float_limit; lia).
  destruct (to_float_spec z Hl) as (Hg & Hr & Hf).
  split; [assumption|]. split; [|assumption].
  apply rnd_id; [now apply format_IZR|assumption].
Qed.

Lemma float_of_int_overflow z :
  float_limit <= z ->
  float_of_int z = Raise (OverflowError "int too large to convert to float").
Proof.
  intros Hz. assert (Hz0 : 0 <= z) by (unfold float_limit in Hz; lia).
  destruct (normalize_spec z Hz0) as (V & HV & HD).
  apply IZR_le in Hz. rewrite IZR_float_limit in Hz.
  pose proof (denotes_overflow _ _ HD (rnd_ge_limit _ _ HV Hz)) as E.
  unfold float_of_int, to_float. now rewrite E.
Qed.

Lemma true_quotient_spec a b :
  0 < a -> 0 < b ->
  exists V, rnd (IZR a / IZR b) V /\
    ((V < bpow 1024)%R ->
       good (true_quotient a b) = true /\ SF2R (true_quotient a b) = V /\
       int_truediv a b = Ok (true_quotient a b)) /\
    ((bpow 1024 <= V)%R ->
       int_truediv a b =
         Raise (OverflowError "integer division result too large for a float")).
Proof.
  intros Ha Hb. destruct (SFdiv_int_spec a b Ha Hb) as (V & HV & HD).
  fold (true_quotient a b) in HD. exists V. split; [assumption|].
  unfold int_truediv. destruct (Z.eqb_spec b 0) as [|_]; [lia|]. split; intros Hlt.
  - destruct (denotes_finite _ _ HD Hlt) as [Hg E]. repeat split; try assumption.
    destruct (true_quotient a b) as [[]|[]| |[] m e]; try discriminate; reflexivity.
  - now rewrite (denotes_overflow _ _ HD Hlt).
Qed.

Lemma fmul_spec a b :
  good a = true -> good b = true ->
  exists V, rnd (SF2R a * SF2R b) V /\
    ((V < bpow 1024)%R -> good (fmul a b) = true /\ SF2R (fmul a b) = V).
Proof.
  intros Ha Hb. destruct (SFmul_spec a b Ha Hb) as (V & HV & HD).
  exists V. split; [assumption|]. intros Hlt. exact (denotes_finite _ _ HD Hlt).
Qed.

Lemma fadd_spec a b :
  good a = true -> good b = true ->
  exists V, rnd (SF2R a + SF2R b) V /\
    ((V < bpow 1024)%R -> good (fadd a b) = true /\ SF2R (fadd a b) = V).
Proof.
  intros Ha Hb. destruct (SFadd_spec a b Ha Hb) as (V & HV & HD).
  exists V. split; [assumption|]. intros Hlt. exact (denotes_finite _ _ HD Hlt).
Qed.

(** ** The scaling branch of [resize_dimensions] *)

(** Discharges the arithmetic premises of a hypothesis. *)
Ltac discharge H :=
  repeat match type of H with
         | ?A -> _ =>
             let a := fresh in
             assert (a : A) by (first [assumption | lia]); specialize (H a); clear a
         end.

Lemma format_one : format 1.
Proof. exists 1, 0. rewrite bpow_0, Rmult_1_r. repeat split; lia. Qed.

Lemma format_half_above m : 0 <= m < 2 ^ 52 -> format (IZR m + / 2).
Proof.
  intros Hm. exists (2 * m + 1), (-1). split; [|lia].
  rewrite plus_IZR, mult_IZR. unfold bpow. simpl. lra.
Qed.

Lemma format_half_below m : 0 < m < 2 ^ 52 -> format (IZR m - / 2).
Proof.
  intros Hm. exists (2 * m - 1), (-1). split; [|lia].
  rewrite minus_IZR, mult_IZR. unfold bpow. simpl. lra.
Qed.

Lemma IZR_div_le_1 a b : 0 < a -> a < b -> (0 < IZR a / IZR b <= 1)%R.
Proof.
  intros Ha Hab. assert (0 < IZR a)%R by izr.
  assert (IZR a < IZR b)%R by izr.
  set (t := (IZR a / IZR b)%R).
  assert (Ht : (t * IZR b = IZR a)%R) by (unfold t; field; lra).
  split; nra.
Qed.

(** The scale factor: a finite float, the rounding of [m/D], at most 1. *)
Lemma scale_spec m D :
  0 < m -> m < D ->
  good (true_quotient m D) = true /\
  rnd (IZR m / IZR D) (SF2R (true_quotient m D)) /\
  (SF2R (true_quotient m D) <= 1)%R /\
  int_truediv m D = Ok (true_quotient m D).
Proof.
  intros Hm HD. destruct (true_quotient_spec m D Hm ltac:(lia)) as (V & HV & Hfin & _).
  pose proof (IZR_div_le_1 m D Hm HD) as [_ Hle].
  pose proof (rnd_le_format _ _ _ HV format_one Hle) as HV1.
  assert (1 < bpow 1024)%R by (change 1%R with (bpow 0); apply bpow_lt; lia).
  destruct (Hfin ltac:(lra)) as (Hg & E & Hd).
  rewrite E. auto.
Qed.

(** One component: [int(z * scale)] for a scale at most 1. *)
Lemma scaled_component z q :
  0 <= z < float_limit -> good q = true -> (SF2R q <= 1)%R ->
  good (fmul (to_float z) q) = true /\
  rnd (SF2R (to_float z) * SF2R q) (SF2R (fmul (to_float z) q)) /\
  (f <- int_mul_float z q ;; int_of_float f) = Ok (truncate (fmul (to_float z) q)).
Proof.
  intros Hz Hq Hq1. destruct (to_float_spec z Hz) as (Hg & Hr & Hf).
  destruct (fmul_spec _ _ Hg Hq) as (V & HV & Hfin).
  destruct (good_format _ Hg) as [Hfz Hlt].
  pose proof (good_nonneg _ Hg) as H0. pose proof (good_nonneg _ Hq) as H1.
  assert (Hle : (SF2R (to_float z) * SF2R q <= SF2R (to_float z))%R) by nra.
  pose proof (rnd_le_format _ _ _ HV Hfz Hle) as HVle.
  destruct (Hfin ltac:(lra)) as [Hgp E].
  split; [assumption|]. split; [now rewrite E|].
  unfold int_mul_float. rewrite Hf. cbn [bind]. now apply good_not_special.
Qed.

Lemma resize_noop w h m :
  0 < w -> 0 < h -> 0 < m -> w <= m /\ h <= m -> resize_dimensions w h m = Ok (w, h).
Proof.
  intros Hw Hh Hm [H1 H2]. unfold resize_dimensions.
  destruct (Z.leb_spec w 0); [lia|]. destruct (Z.leb_spec h 0); [lia|].
  destruct (Z.leb_spec m 0); [lia|]. cbn [orb].
  destruct (Z.leb_spec w m); [|lia]. destruct (Z.leb_spec h m); [|lia]. reflexivity.
Qed.

Section ScalingBranch.

Variables width height max_size : Z.
Hypothesis Hw : 0 < width.
Hypothesis Hh : 0 < height.
Hypothesis Hm : 0 < max_size.
Hypothesis Hscale : ~ (width <= max_size /\ height <= max_size).

(** The divisor of the scale: the larger side, the height on a tie. *)
Let D : Z := if width >? height then width else height.
Let q : float := true_quotient max_size D.

Lemma larger_side : max_size < D /\ width <= D /\ height <= D.
Proof. unfold D. destruct (Z.gtb_spec width height); lia. Qed.

(** What the branch evaluates once the guards are passed. *)
Lemma resize_unfold :
  resize_dimensions width height max_size =
    (fw <- int_mul_float width q ;;
     new_width <- int_of_float fw ;;
     fh <- int_mul_float height q ;;
     new_height <- int_of_float fh ;;
     Ok (new_width, new_height)).
Proof.
  destruct larger_side as (HD & _ & _).
  destruct (scale_spec max_size D Hm HD) as (_ & _ & _ & Hdiv).
  unfold resize_dimensions.
  destruct (Z.leb_spec width 0); [lia|]. destruct (Z.leb_spec height 0); [lia|].
  destruct (Z.leb_spec max_size 0); [lia|]. cbn [orb].
  replace ((width <=? max_size) && (height <=? max_size)) with false
    by (symmetry; apply andb_false_iff; rewrite !Z.leb_gt; lia).
  replace (if width >? height then int_truediv max_size width
           else int_truediv max_size height)
    with (int_truediv max_size D) by (unfold D; now destruct (width >? height)).
  now rewrite Hdiv.
Qed.

(** Within the float range the branch returns [scaled_dimensions]. *)
Lemma resize_scaled :
  width < float_limit -> height < float_limit ->
  resize_dimensions width height max_size = Ok (scaled_dimensions width height max_size).
Proof.
  intros Hwl Hhl. rewrite resize_unfold.
  destruct larger_side as (HD & _ & _).
  destruct (scale_spec max_size D Hm HD) as (Hq & _ & Hq1 & _).
  destruct (scaled_component width q ltac:(lia) Hq Hq1) as (_ & _ & Ew).
  destruct (scaled_component height q ltac:(lia) Hq Hq1) as (_ & _ & Eh).
  unfold bind in Ew, Eh |- *.
  destruct (int_mul_float width q) as [fw|]; [|discriminate]. rewrite Ew.
  destruct (int_mul_float height q) as [fh|]; [|discriminate]. now rewrite Eh.
Qed.

(** Beyond it the conversion of a side to float raises. *)
Lemma resize_overflow :
  float_limit <= width \/ float_limit <= height ->
  resize_dimensions width height max_size =
    Raise (OverflowError "int too large to convert to float").
Proof.
  intros Hbig. rewrite resize_unfold.
  destruct (Z_lt_le_dec width float_limit) as [Hlt|Hge].
  - destruct larger_side as (HD & _ & _).
    destruct (scale_spec max_size D Hm HD) as (Hq & _ & Hq1 & _).
    destruct (scaled_component width q ltac:(lia) Hq Hq1) as (_ & _ & Ew).
    unfold bind in Ew |- *.
    destruct (int_mul_float width q) as [fw|]; [|discriminate]. rewrite Ew.
    unfold int_mul_float. now rewrite float_of_int_overflow by lia.
  - unfold int_mul_float. now rewrite float_of_int_overflow.
Qed.

(** The real value of one scaled component, for an exactly
    representable side. *)
Lemma scaled_component_exact z :
  0 <= z < 2 ^ 53 ->
  good (fmul (to_float z) q) = true /\
  rnd (IZR z * SF2R q) (SF2R (fmul (to_float z) q)).
Proof.
  intros Hz. destruct larger_side as (HD & _ & _).
  destruct (scale_spec max_size D Hm HD) as (Hq & _ & Hq1 & _).
  assert (Hz' : 0 <= z < float_limit) by (unfold float_limit; lia).
  destruct (scaled_component z q Hz' Hq Hq1) as (Hg & Hr & _).
  destruct (to_float_exact z Hz) as (_ & E & _). rewrite E in Hr. auto.
Qed.

(** No component exceeds its exactly representable side. *)
Lemma component_no_upscale z :
  0 < z < 2 ^ 53 -> truncate (fmul (to_float z) q) <= z.
Proof.
  intros Hz. destruct larger_side as (HD & _ & _).
  destruct (scale_spec max_size D Hm HD) as (Hq & _ & Hq1 & _).
  pose proof (good_nonneg _ Hq) as Hq0. fold q in Hq1, Hq0.
  destruct (scaled_component_exact z ltac:(lia)) as [Hg Hr].
  apply truncate_le; [assumption|].
  assert (0 < IZR z)%R by izr.
  pose proof (rnd_le_format _ _ _ Hr (format_IZR z ltac:(lia)) ltac:(nra)). lra.
Qed.

(** From here on all three arguments are exactly representable and
    [max_size] is below [2^52], where floats are less than 1 apart. *)
Hypothesis Hw53 : width < 2 ^ 53.
Hypothesis Hh53 : height < 2 ^ 53.
Hypothesis Hm52 : max_size < 2 ^ 52.

(** The product [D * scale] is within half a unit of [max_size]. *)
Lemma scale_product_bounds :
  (0 <= SF2R q /\ IZR max_size - / 2 <= IZR D * SF2R q <= IZR max_size + / 2)%R.
Proof.
  destruct larger_side as (HD & HDw & HDh).
  assert (HD53 : D < 2 ^ 53) by (unfold D; destruct (width >? height); lia).
  destruct (scale_spec max_size D Hm HD) as (Hq & Hr & Hq1 & _).
  pose proof (good_nonneg _ Hq) as Hq0. fold q in Hr, Hq1, Hq0.
  assert (HDp : (0 < IZR D)%R) by izr.
  assert (Hmp : (1 <= IZR max_size)%R) by izr.
  set (X := (IZR max_size / IZR D)%R) in *.
  assert (HX : (X * IZR D = IZR max_size)%R) by (unfold X; field; lra).
  assert (HX0 : (0 < X)%R) by nra.
  assert (Hnorm : (bpow (-1022) <= X)%R).
  { assert (IZR D < bpow 1022)%R.
    { rewrite (bpow_IZR 1022) by lia. apply IZR_lt.
      assert (2 ^ 53 < 2 ^ 1022) by (apply Z.pow_lt_mono_r; lia). lia. }
    pose proof (bpow_cancel 1022). pose proof (bpow_gt_0 (-1022)).
    change (- (1022)) with (-1022) in H0. nra. }
  destruct (rnd_err _ _ Hr Hnorm) as [E1 E2].
  assert (Heps : (IZR max_size * bpow (-53) < / 2)%R).
  { assert (IZR max_size < bpow 52)%R by (rewrite (bpow_IZR 52) by lia; izr).
    pose proof (bpow_gt_0 (-53)).
    replace (/ 2)%R with (bpow 52 * bpow (-53))%R
      by (rewrite <- bpow_add; unfold bpow; simpl; lra).
    nra. }
  set (eps := bpow (-53)) in *.
  assert (P1 : (IZR D * (SF2R q - X) <= IZR max_size * eps)%R).
  { replace (IZR max_size * eps)%R with (IZR D * (X * eps))%R by (rewrite <- HX; ring).
    apply Rmult_le_compat_l; lra. }
  assert (P2 : (IZR D * (X - SF2R q) <= IZR max_size * eps)%R).
  { replace (IZR max_size * eps)%R with (IZR D * (X * eps))%R by (rewrite <- HX; ring).
    apply Rmult_le_compat_l; lra. }
  split; [assumption|]. split; nra.
Qed.

(** Any side at most [D] scales to at most [max_size]. *)
Lemma component_le z :
  0 <= z <= D -> truncate (fmul (to_float z) q) <= max_size.
Proof.
  intros Hz.
  assert (HD53 : D < 2 ^ 53) by (unfold D; destruct (width >? height); lia).
  destruct (scaled_component_exact z ltac:(lia)) as [Hg Hr].
  destruct scale_product_bounds as (Hq0 & _ & Hup).
  apply truncate_le; [assumption|].
  assert (0 <= IZR z <= IZR D)%R by (split; izr).
  pose proof (rnd_le_format _ _ _ Hr (format_half_above max_size ltac:(lia)) ltac:(nra)).
  lra.
Qed.

(** The larger side itself scales to [max_size] or one less. *)
Lemma component_larger :
  max_size - 1 <= truncate (fmul (to_float D) q) <= max_size.
Proof.
  destruct larger_side as (HD & _ & _).
  assert (HD53 : D < 2 ^ 53) by (unfold D; destruct (width >? height); lia).
  split; [|apply component_le; lia].
  destruct (scaled_component_exact D ltac:(lia)) as [Hg Hr].
  destruct scale_product_bounds as (Hq0 & Hlo & _).
  apply truncate_ge; [assumption|].
  pose proof (rnd_ge_format _ _ _ Hr (format_half_below max_size ltac:(lia)) Hlo).
  rewrite minus_IZR. lra.
Qed.

End ScalingBranch.

(** ** Tolerance and sign of the scaled sides *)

(** Below 1 the absolute rounding error is at most [2^-54]. *)
Lemma rnd_err_below_one x V :
  rnd x V -> (x < 1)%R -> (V - x <= bpow (-54) /\ x - V <= bpow (-54))%R.
Proof.
  intros (M & e & Hc & [[H1 H2] _] & ->) Hx.
  destruct Hc as (Hx0 & He & Hup & Hlo).
  assert (Hee : e <= -53).
  { destruct (Z_le_gt_dec e (-53)) as [|Hgt]; [assumption|exfalso].
    specialize (Hlo ltac:(lia)).
    pose proof (bpow_le 0 (e + 52) ltac:(lia)) as Hb. rewrite bpow_0 in Hb. lra. }
  assert (Hu : (bpow e * / 2 <= bpow (-54))%R).
  { replace (/ 2)%R with (bpow (-1)) by (unfold bpow; simpl; lra).
    rewrite <- bpow_add. apply bpow_le. lia. }
  pose proof (bpow_gt_0 e) as Hbe. pose proof (bpow_cancel e) as Hcan.
  assert (E : x = (x * bpow (- e) * bpow e)%R).
  { rewrite Rmult_assoc, (Rmult_comm (bpow (- e))), Hcan. lra. }
  set (y := (x * bpow (- e))%R) in *.
  split; rewrite E at 1; nra.
Qed.

(** A value strictly below [n + 1/2] rounds to less than [n + 1]: up to
    [2^52] because [n + 1/2] is a float, above because floats there are
    integers. *)
Lemma rnd_lt_succ_int x V n :
  rnd x V -> 0 <= n < 2 ^ 53 -> (x < IZR n + / 2)%R -> (V < IZR n + 1)%R.
Proof.
  intros HV Hn Hx.
  destruct (Z_lt_le_dec n (2 ^ 52)) as [Hsmall|Hbig].
  - pose proof (rnd_le_format _ _ _ HV (format_half_above n ltac:(lia)) ltac:(lra)). lra.
  - assert (Hn52 : (bpow 52 <= IZR n)%R) by (rewrite (bpow_IZR 52) by lia; izr).
    assert (Hn53 : (IZR n + 1 <= bpow 53)%R).
    { rewrite (bpow_IZR 53), <- plus_IZR by lia. izr. }
    destruct (Rlt_or_le x (bpow 52)) as [Hlt|Hge].
    + pose proof (rnd_le_format _ _ _ HV (format_IZR (2 ^ 52) ltac:(lia))) as Hle.
      rewrite <- (bpow_IZR 52) in Hle by lia. specialize (Hle ltac:(lra)). lra.
    + destruct HV as (M & e & Hc & [[H1 _] _] & ->).
      destruct Hc as (_ & He & Hup & Hlo).
      assert (He0 : 0 <= e).
      { assert (bpow 52 < bpow (e + 53))%R by lra. apply bpow_lt_inv in H. lia. }
      assert (He1 : e <= 0).
      { destruct (Z_le_gt_dec e 0) as [|Hgt]; [assumption|exfalso].
        specialize (Hlo ltac:(lia)).
        assert (bpow (e + 52) < bpow 53)%R by lra. apply bpow_lt_inv in H. lia. }
      assert (e = 0) by lia. subst e.
      change (- 0) with 0 in H1. rewrite bpow_0, Rmult_1_r in *. lra.
Qed.

(** The float of one scaled side, for an exactly representable side. *)
Lemma scaled_value z m D :
  0 < m -> m < D -> 0 <= z < 2 ^ 53 ->
  let q := true_quotient m D in
  good q = true /\ rnd (IZR m / IZR D) (SF2R q) /\ (0 <= SF2R q <= 1)%R /\
  good (fmul (to_float z) q) = true /\
  rnd (IZR z * SF2R q) (SF2R (fmul (to_float z) q)).
Proof.
  intros Hm HD Hz q. destruct (scale_spec m D Hm HD) as (Hq & Rq & Hq1 & _).
  pose proof (good_nonneg _ Hq) as Hq0.
  assert (Hzl : 0 <= z < float_limit) by (unfold float_limit; lia).
  destruct (scaled_component z _ Hzl Hq Hq1) as (Gp & Rp & _).
  destruct (to_float_exact z Hz) as (_ & Ez & _). rewrite Ez in Rp.
  repeat split; assumption.
Qed.

(** The product of the larger side and the scale is strictly within half
    a unit of [max_size], whatever [max_size] is. *)
Lemma divisor_times_scale m D :
  0 < m -> m < D < 2 ^ 53 ->
  let q := SF2R (true_quotient m D) in
  (0 <= q /\ IZR m - / 2 < IZR D * q < IZR m + / 2)%R.
Proof.
  intros Hm HD q.
  destruct (scaled_value 0 m D Hm ltac:(lia) ltac:(lia)) as (_ & Rq & [Hq0 _] & _).
  fold q in Rq, Hq0.
  assert (HDp : (1 <= IZR D)%R) by izr.
  assert (Hmp : (IZR m < IZR D)%R) by izr.
  set (X := (IZR m / IZR D)%R) in *.
  assert (HX : (X * IZR D = IZR m)%R) by (unfold X; field; lra).
  assert (HX1 : (X < 1)%R) by nra.
  destruct (rnd_err_below_one _ _ Rq HX1) as [E1 E2].
  assert (HD54 : (IZR D * bpow (-54) < / 2)%R).
  { assert (IZR D < bpow 53)%R by (rewrite (bpow_IZR 53) by lia; izr).
    pose proof (bpow_gt_0 (-54)).
    replace (/ 2)%R with (bpow 53 * bpow (-54))%R
      by (rewrite <- bpow_add; unfold bpow; simpl; lra).
    nra. }
  split; [assumption|]. split; nra.
Qed.

(** Any side up to the larger one scales to at most [max_size]. *)
Lemma side_at_most_max z m D :
  0 < m -> m < D < 2 ^ 53 -> 0 <= z <= D ->
  truncate (fmul (to_float z) (true_quotient m D)) <= m.
Proof.
  intros Hm HD Hz.
  destruct (scaled_value z m D Hm ltac:(lia) ltac:(lia)) as (_ & _ & _ & Gp & Rp).
  destruct (divisor_times_scale m D Hm HD) as (Hq0 & _ & Hup).
  apply truncate_le; [assumption|].
  assert (0 <= IZR z <= IZR D)%R by (split; izr).
  apply (rnd_lt_succ_int _ _ m Rp ltac:(lia)). nra.
Qed.

(** The larger side itself scales to [max_size] or one less. *)
Lemma larger_side_tolerance m D :
  0 < m -> m < D < 2 ^ 53 ->
  m - 1 <= truncate (fmul (to_float D) (true_quotient m D)) <= m.
Proof.
  intros Hm HD. split; [|apply side_at_most_max; lia].
  destruct (scaled_value D m D Hm ltac:(lia) ltac:(lia)) as (_ & _ & _ & Gp & Rp).
  destruct (divisor_times_scale m D Hm HD) as (_ & Hlo & _).
  apply truncate_ge; [assumption|].
  apply (rnd_ge_format _ _ _ Rp (format_IZR (m - 1) ltac:(lia))).
  rewrite minus_IZR. lra.
Qed.

(** A side whose exact scaled length exceeds 1 keeps at least one
    pixel. *)
Lemma side_stays_positive z m D :
  0 < m -> m < D < 2 ^ 53 -> 0 <= z < 2 ^ 53 -> D < z * m ->
  1 <= truncate (fmul (to_float z) (true_quotient m D)).
Proof.
  intros Hm HD Hz Hzm.
  destruct (scaled_value z m D Hm ltac:(lia) Hz) as (_ & Rq & [Hq0 _] & Gp & Rp).
  set (q := SF2R (true_quotient m D)) in *.
  assert (HDp : (1 <= IZR D)%R) by izr.
  assert (Hmp : (1 <= IZR m)%R) by izr.
  assert (Hzp : (0 <= IZR z)%R) by izr.
  set (X := (IZR m / IZR D)%R) in *.
  assert (HX : (X * IZR D = IZR m)%R) by (unfold X; field; lra).
  assert (HX0 : (0 < X)%R) by nra.
  assert (Hnorm : (bpow (-1022) <= X)%R).
  { assert (IZR D < bpow 1022)%R.
    { rewrite (bpow_IZR 1022) by lia. apply IZR_lt.
      assert (2 ^ 53 < 2 ^ 1022) by (apply Z.pow_lt_mono_r; lia). lia. }
    pose proof (bpow_cancel 1022). pose proof (bpow_gt_0 (-1022)).
    change (- (1022)) with (-1022) in H0. nra. }
  destruct (rnd_err _ _ Rq Hnorm) as [_ E2].
  set (eps := bpow (-53)) in *.
  assert (Heps : (0 < eps /\ (IZR D + 1) * eps <= 1)%R).
  { unfold eps. pose proof (bpow_gt_0 (-53)). split; [assumption|].
    assert (IZR D + 1 <= bpow 53)%R.
    { rewrite (bpow_IZR 53), <- plus_IZR by lia. izr. }
    pose proof (bpow_cancel 53) as Hc. change (- (53)) with (-53) in Hc. nra. }
  destruct Heps as [He0 He1].
  assert (Hzm' : (IZR D + 1 <= IZR z * IZR m)%R).
  { rewrite <- mult_IZR, <- plus_IZR. izr. }
  assert (Hprod : (1 <= IZR z * q)%R).
  { set (u := (IZR z * X)%R).
    assert (Hu : (u * IZR D = IZR z * IZR m)%R) by (unfold u; rewrite <- HX; ring).
    assert (Hzq : (u * (1 - eps) <= IZR z * q)%R).
    { unfold u. replace (IZR z * X * (1 - eps))%R with (IZR z * (X - X * eps))%R by ring.
      apply Rmult_le_compat_l; lra. }
    assert (Hu1 : (1 <= u * (1 - eps))%R).
    { apply Rmult_le_reg_r with (IZR D); [lra|].
      replace (u * (1 - eps) * IZR D)%R with ((u * IZR D) * (1 - eps))%R by ring.
      rewrite Hu. nra. }
    lra. }
  apply truncate_ge; [assumption|].
  exact (rnd_ge_format _ _ _ Rp format_one Hprod).
Qed.

(** Every scaled side is a non-negative finite float. *)
Lemma scaled_side_good z m D :
  0 < m -> m < D -> 0 <= z < float_limit ->
  good (fmul (to_float z) (true_quotient m D)) = true.
Proof.
  intros Hm HD Hz. destruct (scale_spec m D Hm HD) as (Hq & _ & Hq1 & _).
  now destruct (scaled_component z _ Hz Hq Hq1) as (G & _).
Qed.

(** ** Aspect ratio *)

(** C3 (as amended): [calculate_aspect_ratio] raises [ValueError] exactly
    when [width <= 0] or [height <= 0]; for positive arguments whose
    quotient is below the float range limit it returns the binary64
    nearest to [width / height] (ties to even), and for larger quotients
    the division raises [OverflowError]. *)
Theorem calculate_aspect_ratio_spec (width height : Z) :
  (calculate_aspect_ratio width height =
     Raise (ValueError "Width and height must be positive integers")
   <-> width <= 0 \/ height <= 0) /\
  (0 < width -> 0 < height -> width < float_limit * height ->
   exists f, calculate_aspect_ratio width height = Ok f /\ good f = true /\
             rnd (IZR width / IZR height) (SF2R f)) /\
  (0 < width -> 0 < height -> float_limit * height <= width ->
   calculate_aspect_ratio width height =
     Raise (OverflowError "integer division result too large for a float")).
Proof.
  assert (Hpos : 0 < width -> 0 < height ->
                 calculate_aspect_ratio width height = int_truediv width height).
  { intros Hw Hh. unfold calculate_aspect_ratio.
    destruct (Z.leb_spec width 0); [lia|]. destruct (Z.leb_spec height 0); [lia|]. reflexivity. }
  assert (Hq : 0 < width -> 0 < height ->
               (IZR width / IZR height * IZR height = IZR width)%R).
  { intros Hw Hh. assert (0 < IZR height)%R by (apply IZR_lt; lia). field. lra. }
  assert (Hfin : 0 < width -> 0 < height -> width < float_limit * height ->
          exists f, calculate_aspect_ratio width height = Ok f /\ good f = true /\
                    rnd (IZR width / IZR height) (SF2R f)).
  { intros Hw Hh Hlt. rewrite (Hpos Hw Hh).
    destruct (true_quotient_spec width height Hw Hh) as (V & HV & Hf & _).
    assert (IZR width / IZR height < bpow 1024 - bpow 970)%R.
    { rewrite <- IZR_float_limit. apply IZR_lt in Hlt. rewrite mult_IZR in Hlt.
      assert (0 < IZR height)%R by (apply IZR_lt; lia). specialize (Hq Hw Hh). nra. }
    destruct (Hf (rnd_lt_limit _ _ HV H)) as (Hg & E & Hd).
    exists (true_quotient width height). rewrite E. auto. }
  assert (Hinf : 0 < width -> 0 < height -> float_limit * height <= width ->
          calculate_aspect_ratio width height =
            Raise (OverflowError "integer division result too large for a float")).
  { intros Hw Hh Hge. rewrite (Hpos Hw Hh).
    destruct (true_quotient_spec width height Hw Hh) as (V & HV & _ & Hf).
    apply Hf. apply (rnd_ge_limit _ _ HV).
    rewrite <- IZR_float_limit. apply IZR_le in Hge. rewrite mult_IZR in Hge.
    assert (0 < IZR height)%R by (apply IZR_lt; lia). specialize (Hq Hw Hh). nra. }
  split; [|split; assumption].
  split.
  - intros H. destruct (Z_le_gt_dec width 0); [now left|].
    destruct (Z_le_gt_dec height 0); [now right|]. exfalso.
    destruct (Z_lt_le_dec width (float_limit * height)) as [Hlt|Hge].
    + destruct (Hfin ltac:(lia) ltac:(lia) Hlt) as (f & E & _). congruence.
    + rewrite (Hinf ltac:(lia) ltac:(lia) Hge) in H. discriminate.
  - intros H. unfold calculate_aspect_ratio.
    destruct (Z.leb_spec width 0); [reflexivity|].
    destruct (Z.leb_spec height 0); [reflexivity|]. lia.
Qed.

(** C3 as stated fails: for [width = 2^1024] and [height = 1], both
    positive, no float is returned. *)
Lemma calculate_aspect_ratio_overflow :
  0 < 2 ^ 1024 /\ 0 < 1 /\
  calculate_aspect_ratio (2 ^ 1024) 1 =
    Raise (OverflowError "integer division result too large for a float").
Proof. repeat split. Qed.

(** ** Resize to fit *)

(** C1 (as amended): for positive arguments, [resize_dimensions] returns
    the inputs when both fit; otherwise, for [width] and [height] below
    the float range limit, it returns [(int(width * scale),
    int(height * scale))] with [scale = max_size / width] when
    [width > height] and [max_size / height] otherwise; at or above the
    limit the conversion of that side raises [OverflowError]. *)
Theorem resize_dimensions_formula (width height max_size : Z) :
  0 < width -> 0 < height -> 0 < max_size ->
  (width <= max_size /\ height <= max_size ->
   resize_dimensions width height max_size = Ok (width, height)) /\
  (~ (width <= max_size /\ height <= max_size) ->
   width < float_limit -> height < float_limit ->
   resize_dimensions width height max_size =
     let scale := true_quotient max_size (if width >? height then width else height) in
     Ok (truncate (fmul (to_float width) scale),
         truncate (fmul (to_float height) scale))) /\
  (~ (width <= max_size /\ height <= max_size) ->
   float_limit <= width \/ float_limit <= height ->
   resize_dimensions width height max_size =
     Raise (OverflowError "int too large to convert to float")).
Proof.
  intros Hw Hh Hm. split; [|split].
  - now apply resize_noop.
  - intros Hn Hwl Hhl. now apply resize_scaled.
  - intros Hn Hbig. now apply resize_overflow.
Qed.

Lemma resize_dimensions_formula_witness :
  (0 < 1921 /\ 0 < 1081 /\ 0 < 1000) /\
  resize_dimensions 1921 1081 1000 = Ok (1000, 562).
Proof.
  split; [lia|].
  destruct (resize_dimensions_formula 1921 1081 1000) as (_ & H & _); [lia|lia|lia|].
  rewrite H; [reflexivity|lia|reflexivity|reflexivity].
Defined.

(** C1 as stated fails: at [(2^1024, 1, 1)], all positive and in the
    scaling branch, the conversion of [width] raises and no pair is
    returned. *)
Lemma resize_dimensions_overflow :
  (0 < 2 ^ 1024 /\ 0 < 1 /\ ~ (2 ^ 1024 <= 1 /\ 1 <= 1)) /\
  resize_dimensions (2 ^ 1024) 1 1 =
    Raise (OverflowError "int too large to convert to float").
Proof. split; [lia|reflexivity]. Qed.

(** C5 (as amended): for [width] and [height] below [2^53], in the
    scaling branch, the component of the larger input is [max_size] or
    [max_size - 1] and the other is at most [max_size]. *)
Theorem resize_larger_dimension (width height max_size : Z) :
  0 < width < 2 ^ 53 -> 0 < height < 2 ^ 53 -> 0 < max_size ->
  ~ (width <= max_size /\ height <= max_size) ->
  exists new_width new_height,
    resize_dimensions width height max_size = Ok (new_width, new_height) /\
    (height < width ->
     (new_width = max_size \/ new_width = max_size - 1) /\ new_height <= max_size) /\
    (width <= height ->
     (new_height = max_size \/ new_height = max_size - 1) /\ new_width <= max_size).
Proof.
  intros Hw Hh Hm Hn.
  rewrite resize_scaled by (unfold float_limit; lia). unfold scaled_dimensions.
  eexists _, _. split; [reflexivity|].
  destruct (Z.gtb_spec width height) as [Hgt|Hle]; split; intros Hc; try lia.
  - pose proof (larger_side_tolerance max_size width Hm ltac:(lia)).
    pose proof (side_at_most_max height max_size width Hm ltac:(lia) ltac:(lia)). lia.
  - pose proof (larger_side_tolerance max_size height Hm ltac:(lia)).
    pose proof (side_at_most_max width max_size height Hm ltac:(lia) ltac:(lia)). lia.
Qed.

Lemma resize_larger_dimension_witness :
  (0 < 2 ^ 53 - 1 < 2 ^ 53 /\ 0 < 49 < 2 ^ 53 /\ 0 < 2 ^ 53 - 2 /\
   ~ (2 ^ 53 - 1 <= 2 ^ 53 - 2 /\ 49 <= 2 ^ 53 - 2)) /\
  exists new_width new_height,
    resize_dimensions (2 ^ 53 - 1) 49 (2 ^ 53 - 2) = Ok (new_width, new_height) /\
    (49 < 2 ^ 53 - 1 ->
     (new_width = 2 ^ 53 - 2 \/ new_width = 2 ^ 53 - 2 - 1) /\
     new_height <= 2 ^ 53 - 2) /\
    (2 ^ 53 - 1 <= 49 ->
     (new_height = 2 ^ 53 - 2 \/ new_height = 2 ^ 53 - 2 - 1) /\
     new_width <= 2 ^ 53 - 2).
Proof.
  split; [lia|]. apply (resize_larger_dimension (2 ^ 53 - 1) 49 (2 ^ 53 - 2)); lia.
Defined.

(** C5 as stated fails beyond the exactly representable range: at
    [(2^54, 1, 2^53 + 3)] the larger returned dimension is
    [max_size + 1]. *)
Lemma resize_larger_dimension_exceeds :
  (0 < 2 ^ 54 /\ 0 < 1 /\ 0 < 2 ^ 53 + 3 /\ ~ (2 ^ 54 <= 2 ^ 53 + 3 /\ 1 <= 2 ^ 53 + 3)) /\
  resize_dimensions (2 ^ 54) 1 (2 ^ 53 + 3) = Ok (2 ^ 53 + 3 + 1, 0).
Proof. split; [lia|reflexivity]. Qed.

(** C8 as stated fails: with inputs [(1000, 1, 10)], all positive, the
    scaled height truncates to 0; with [(49, 1, 1)] both components
    do. *)
Theorem resize_dimensions_zero_component :
  resize_dimensions 1000 1 10 = Ok (10, 0) /\
  resize_dimensions 49 1 1 = Ok (0, 0).
Proof. split; reflexivity. Qed.

(** C8 (as amended): for positive arguments on which
    [resize_dimensions] returns (both sides fit, or both are below the
    float limit), both components of the returned pair are
    non-negative; both are positive when the input already fits, and,
    for sides below [2^53], the component of a side is positive
    whenever [side * max_size] exceeds the larger side. *)
Theorem resize_component_signs (width height max_size : Z) :
  0 < width -> 0 < height -> 0 < max_size ->
  (width <= max_size /\ height <= max_size) \/
  (width < float_limit /\ height < float_limit) ->
  exists new_width new_height,
    resize_dimensions width height max_size = Ok (new_width, new_height) /\
    0 <= new_width /\ 0 <= new_height /\
    (width <= max_size /\ height <= max_size -> 0 < new_width /\ 0 < new_height) /\
    (width < 2 ^ 53 -> height < 2 ^ 53 ->
     (Z.max width height < width * max_size -> 0 < new_width) /\
     (Z.max width height < height * max_size -> 0 < new_height)).
Proof.
  intros Hw Hh Hm Hret.
  assert (Hfit : (width <= max_size /\ height <= max_size) \/
                 ~ (width <= max_size /\ height <= max_size)) by lia.
  destruct Hfit as [Hfit|Hn].
  - exists width, height. split; [apply resize_noop; lia|]. repeat split; lia.
  - destruct Hret as [Hfit|[Hwl Hhl]]; [contradiction|].
    rewrite resize_scaled by lia. unfold scaled_dimensions.
    eexists _, _. split; [reflexivity|].
    pose proof (larger_side width height max_size) as HL. cbv zeta in HL. discharge HL.
    set (D := if width >? height then width else height) in *.
    split; [apply truncate_nonneg, scaled_side_good; lia|].
    split; [apply truncate_nonneg, scaled_side_good; lia|].
    split; [intros Hfit; lia|]. intros Hw53 Hh53.
    assert (HD : D = Z.max width height) by (unfold D; destruct (Z.gtb_spec width height); lia).
    rewrite <- HD.
    split; intros Hc;
      match goal with |- 0 < ?t => enough (1 <= t) by lia end;
      apply side_stays_positive; lia.
Qed.

Lemma resize_component_signs_witness :
  (0 < 1921 /\ 0 < 1081 /\ 0 < 1000 /\
   ((1921 <= 1000 /\ 1081 <= 1000) \/ (1921 < float_limit /\ 1081 < float_limit))) /\
  exists new_width new_height,
    resize_dimensions 1921 1081 1000 = Ok (new_width, new_height) /\
    0 <= new_width /\ 0 <= new_height /\
    (1921 <= 1000 /\ 1081 <= 1000 -> 0 < new_width /\ 0 < new_height) /\
    (1921 < 2 ^ 53 -> 1081 < 2 ^ 53 ->
     (Z.max 1921 1081 < 1921 * 1000 -> 0 < new_width) /\
     (Z.max 1921 1081 < 1081 * 1000 -> 0 < new_height)).
Proof.
  split; [unfold float_limit; lia|].
  apply (resize_component_signs 1921 1081 1000); unfold float_limit; lia.
Defined.

(** The bound [2^53] on the sides matters: beyond it a side can come
    back as 0 although [side * max_size] exceeds the larger side. *)
Lemma resize_zero_beyond_exact_range :
  Z.max (49 * 2 ^ 60 - 1) 49 < 49 * 2 ^ 60 /\
  resize_dimensions (49 * 2 ^ 60 - 1) 49 (2 ^ 60) = Ok (2 ^ 60 - 128, 0).
Proof. split; [lia|reflexivity]. Qed.

(** C9 (as amended): for [width] and [height] below [2^53], where the
    conversion to float is exact, [resize_dimensions] never upscales. *)
Theorem resize_never_upscales (width height max_size : Z) :
  0 < width < 2 ^ 53 -> 0 < height < 2 ^ 53 -> 0 < max_size ->
  exists new_width new_height,
    resize_dimensions width height max_size = Ok (new_width, new_height) /\
    new_width <= width /\ new_height <= height.
Proof.
  intros Hw Hh Hm.
  assert (Hcase : (width <= max_size /\ height <= max_size) \/
                  ~ (width <= max_size /\ height <= max_size)) by lia.
  destruct Hcase as [Hfit|Hn].
  - exists width, height. rewrite resize_noop by lia. repeat split; lia.
  - rewrite resize_scaled by (unfold float_limit; lia). unfold scaled_dimensions.
    eexists _, _. split; [reflexivity|].
    split; apply component_no_upscale; lia.
Qed.

Lemma resize_never_upscales_witness :
  (0 < 2000 < 2 ^ 53 /\ 0 < 1000 < 2 ^ 53 /\ 0 < 1000) /\
  exists new_width new_height,
    resize_dimensions 2000 1000 1000 = Ok (new_width, new_height) /\
    new_width <= 2000 /\ new_height <= 1000.
Proof.
  split; [lia|]. apply (resize_never_upscales 2000 1000 1000); lia.
Defined.

(** C9 as stated fails beyond the exactly representable range: at
    [(2^54 + 3, 1, 2^54 + 2)] the returned width exceeds the input. *)
Lemma resize_upscales_large :
  (0 < 2 ^ 54 + 3 /\ 0 < 1 /\ 0 < 2 ^ 54 + 2) /\
  resize_dimensions (2 ^ 54 + 3) 1 (2 ^ 54 + 2) = Ok (2 ^ 54 + 3 + 1, 1) /\
  ~ (2 ^ 54 + 3 + 1 <= 2 ^ 54 + 3).
Proof. split; [lia|]. split; [reflexivity|lia]. Qed.

(** ** Grayscale conversion *)

Lemma literal_spec n :
  0 < n < 100 ->
  good (true_quotient n 100) = true /\
  rnd (IZR n / 100) (SF2R (true_quotient n 100)) /\
  (0 <= SF2R (true_quotient n 100) <= 1)%R.
Proof.
  intros Hn. destruct (scale_spec n 100 ltac:(lia) ltac:(lia)) as (Hg & Hr & H1 & _).
  pose proof (good_nonneg _ Hg). auto.
Qed.

Lemma fmul_bounded a b k :
  good a = true -> good b = true -> 0 <= k < 2 ^ 53 -> (SF2R a * SF2R b <= IZR k)%R ->
  good (fmul a b) = true /\ rnd (SF2R a * SF2R b) (SF2R (fmul a b)) /\
  (SF2R (fmul a b) <= IZR k)%R.
Proof.
  intros Ha Hb Hk Hle. destruct (fmul_spec a b Ha Hb) as (V & HV & Hfin).
  pose proof (rnd_le_format _ _ _ HV (format_IZR k Hk) Hle) as HVk.
  assert (IZR k < bpow 1024)%R.
  { apply Rlt_trans with (bpow 53); [rewrite (bpow_IZR 53) by lia; apply IZR_lt; lia|].
    apply bpow_lt. lia. }
  destruct (Hfin ltac:(lra)) as [Hg E]. rewrite E. auto.
Qed.

Lemma fadd_bounded a b k :
  good a = true -> good b = true -> 0 <= k < 2 ^ 53 -> (SF2R a + SF2R b <= IZR k)%R ->
  good (fadd a b) = true /\ rnd (SF2R a + SF2R b) (SF2R (fadd a b)) /\
  (SF2R (fadd a b) <= IZR k)%R.
Proof.
  intros Ha Hb Hk Hle. destruct (fadd_spec a b Ha Hb) as (V & HV & Hfin).
  pose proof (rnd_le_format _ _ _ HV (format_IZR k Hk) Hle) as HVk.
  assert (IZR k < bpow 1024)%R.
  { apply Rlt_trans with (bpow 53); [rewrite (bpow_IZR 53) by lia; apply IZR_lt; lia|].
    apply bpow_lt. lia. }
  destruct (Hfin ltac:(lra)) as [Hg E]. rewrite E. auto.
Qed.

(** One weighted channel, [c * z] with [c] a weight and [z] in range. *)
Lemma channel_term c z :
  good c = true -> (SF2R c <= 1)%R -> 0 <= z <= 255 ->
  float_mul_int c z = Ok (fmul c (to_float z)) /\
  good (fmul c (to_float z)) = true /\
  rnd (SF2R c * IZR z) (SF2R (fmul c (to_float z))) /\
  (SF2R (fmul c (to_float z)) <= 255)%R.
Proof.
  intros Hc Hc1 Hz. destruct (to_float_exact z ltac:(lia)) as (Hg & E & Hf).
  pose proof (good_nonneg _ Hc) as Hc0.
  assert (0 <= IZR z <= 255)%R by (split; [apply (IZR_le 0)|apply (IZR_le z 255)]; lia).
  destruct (fmul_bounded c (to_float z) 255 Hc Hg ltac:(lia)) as (Hgp & Hr & Hle).
  { rewrite E. nra. }
  rewrite E in Hr. unfold float_mul_int. rewrite Hf. cbn [bind]. auto.
Qed.

Lemma weights_good :
  (good lit_0_21 = true /\ (SF2R lit_0_21 <= 1)%R) /\
  (good lit_0_72 = true /\ (SF2R lit_0_72 <= 1)%R) /\
  (good lit_0_07 = true /\ (SF2R lit_0_07 <= 1)%R).
Proof.
  destruct (literal_spec 21 ltac:(lia)) as (G1 & _ & _ & L1).
  destruct (literal_spec 72 ltac:(lia)) as (G2 & _ & _ & L2).
  destruct (literal_spec 7 ltac:(lia)) as (G3 & _ & _ & L3).
  repeat split; assumption.
Qed.

Lemma check_channels_in_range r g b :
  0 <= r <= 255 -> 0 <= g <= 255 -> 0 <= b <= 255 ->
  check_channels [(r, "r"%string); (g, "g"%string); (b, "b"%string)] = Ok tt.
Proof.
  intros Hr Hg Hb. cbn [check_channels].
  repeat match goal with
  | |- context [?a <=? ?b] => destruct (Z.leb_spec a b); [|lia]
  end.
  reflexivity.
Qed.

(** The float computation of the weighted sum never leaves the finite
    range and is what [rgb_to_grayscale] truncates. *)
Lemma gray_sem r g b :
  0 <= r <= 255 -> 0 <= g <= 255 -> 0 <= b <= 255 ->
  good (weighted_sum r g b) = true /\
  gray_real r g b (SF2R (weighted_sum r g b)) /\
  rgb_to_grayscale r g b = Ok (truncate (weighted_sum r g b)).
Proof.
  intros Hr Hg Hb. destruct weights_good as ((G1 & L1) & (G2 & L2) & (G3 & L3)).
  destruct (channel_term lit_0_21 r G1 L1 Hr) as (E1 & Gr & R1 & B1).
  destruct (channel_term lit_0_72 g G2 L2 Hg) as (E2 & Gg & R2 & B2).
  destruct (channel_term lit_0_07 b G3 L3 Hb) as (E3 & Gb & R3 & B3).
  destruct (fadd_bounded _ _ 510 Gr Gg ltac:(lia) ltac:(lra)) as (Gs & Rs & Bs).
  destruct (fadd_bounded _ _ 765 Gs Gb ltac:(lia) ltac:(lra)) as (Gt & Rt & Bt).
  fold (weighted_sum r g b) in Gt, Rt, Bt.
  split; [assumption|]. split.
  - eexists _, _, _, _. repeat split; eassumption.
  - unfold rgb_to_grayscale. rewrite check_channels_in_range by assumption.
    cbn [bind]. rewrite E1, E2. cbn [bind]. cbv zeta. rewrite E3. cbn [bind].
    now apply good_not_special.
Qed.

Lemma gray_real_mono r g b r' g' b' S S' :
  0 <= r <= r' -> 0 <= g <= g' -> 0 <= b <= b' ->
  gray_real r g b S -> gray_real r' g' b' S' -> (S <= S')%R.
Proof.
  intros Hr Hg Hb (V1 & V2 & S1 & V3 & A1 & A2 & A3 & A4 & A5)
         (V1' & V2' & S1' & V3' & A1' & A2' & A3' & A4' & A5').
  destruct weights_good as ((G1 & _) & (G2 & _) & (G3 & _)).
  apply good_nonneg in G1, G2, G3.
  assert (IZR r <= IZR r')%R by (apply IZR_le; lia).
  assert (IZR g <= IZR g')%R by (apply IZR_le; lia).
  assert (IZR b <= IZR b')%R by (apply IZR_le; lia).
  assert (V1 <= V1')%R by (eapply rnd_mono; [|exact A1|exact A1']; nra).
  assert (V2 <= V2')%R by (eapply rnd_mono; [|exact A2|exact A2']; nra).
  assert (V3 <= V3')%R by (eapply rnd_mono; [|exact A4|exact A4']; nra).
  assert (S1 <= S1')%R by (eapply rnd_mono; [|exact A3|exact A3']; lra).
  eapply rnd_mono; [|exact A5|exact A5']; lra.
Qed.

(** Raising any channels within range cannot lower the result. *)
Lemma gray_mono r g b r' g' b' :
  0 <= r <= r' -> r' <= 255 -> 0 <= g <= g' -> g' <= 255 -> 0 <= b <= b' -> b' <= 255 ->
  result_le (rgb_to_grayscale r g b) (rgb_to_grayscale r' g' b').
Proof.
  intros Hr Hr' Hg Hg' Hb Hb'.
  destruct (gray_sem r g b ltac:(lia) ltac:(lia) ltac:(lia)) as (G & R & ->).
  destruct (gray_sem r' g' b' ltac:(lia) ltac:(lia) ltac:(lia)) as (G' & R' & ->).
  cbn [result_le]. apply truncate_mono; try assumption.
  eapply gray_real_mono; [| | |exact R|exact R']; assumption.
Qed.

(** C2: for channels in [0, 255], [rgb_to_grayscale] returns exactly
    [int(0.21*r + 0.72*g + 0.07*b)]: the weights are the floats nearest
    to 21/100, 72/100 and 7/100; the three products and the two sums,
    taken left to right, are each rounded to nearest-even ([gray_real]);
    the final sum [S] is a finite non-negative float, and the result is
    its integer part. *)
Theorem rgb_to_grayscale_value (r g b : Z) :
  0 <= r <= 255 -> 0 <= g <= 255 -> 0 <= b <= 255 ->
  rnd (21 / 100) (SF2R lit_0_21) /\ rnd (72 / 100) (SF2R lit_0_72) /\
  rnd (7 / 100) (SF2R lit_0_07) /\
  exists (S : R) (n : Z),
    gray_real r g b S /\
    rgb_to_grayscale r g b = Ok n /\
    (IZR n <= S < IZR n + 1)%R /\
    good (weighted_sum r g b) = true /\
    S = SF2R (weighted_sum r g b) /\ n = truncate (weighted_sum r g b).
Proof.
  intros Hr Hg Hb. destruct (gray_sem r g b Hr Hg Hb) as (G & R & E).
  destruct (literal_spec 21 ltac:(lia)) as (_ & R1 & _).
  destruct (literal_spec 72 ltac:(lia)) as (_ & R2 & _).
  destruct (literal_spec 7 ltac:(lia)) as (_ & R3 & _).
  split; [exact R1|]. split; [exact R2|]. split; [exact R3|].
  exists (SF2R (weighted_sum r g b)), (truncate (weighted_sum r g b)).
  split; [assumption|]. split; [assumption|].
  split; [now apply truncate_floor|]. auto.
Qed.

Lemma rgb_to_grayscale_value_witness :
  (0 <= 255 <= 255 /\ 0 <= 255 <= 255 /\ 0 <= 255 <= 255) /\
  rgb_to_grayscale 255 255 255 = Ok 254 /\
  exists S : R, gray_real 255 255 255 S /\ (254 <= S < 255)%R.
Proof.
  split; [lia|].
  destruct (rgb_to_grayscale_value 255 255 255)
    as (_ & _ & _ & S & n & HS & E & Hn & _ & _ & En); [lia|lia|lia|].
  assert (Hv : truncate (weighted_sum 255 255 255) = 254) by reflexivity.
  rewrite Hv in En. rewrite En in E, Hn.
  split; [exact E|]. exists S. split; [exact HS|]. lra.
Defined.

(** C6: for channels in [0, 255] the result lies between 0 and 254 and
    is the integer part of the float sum (no rounding up, no clamping);
    pure white gives 254. *)
Theorem rgb_to_grayscale_range :
  (forall r g b : Z,
     0 <= r <= 255 -> 0 <= g <= 255 -> 0 <= b <= 255 ->
     exists v, rgb_to_grayscale r g b = Ok v /\ 0 <= v <= 254 /\
               (IZR v <= SF2R (weighted_sum r g b) < IZR v + 1)%R) /\
  rgb_to_grayscale 255 255 255 = Ok 254.
Proof.
  split; [|reflexivity].
  intros r g b Hr Hg Hb. destruct (gray_sem r g b Hr Hg Hb) as (G & _ & E).
  exists (truncate (weighted_sum r g b)). split; [assumption|]. split.
  - split; [now apply truncate_nonneg|].
    pose proof (gray_mono r g b 255 255 255 ltac:(lia) ltac:(lia) ltac:(lia)
                  ltac:(lia) ltac:(lia) ltac:(lia)) as H.
    rewrite E in H. exact H.
  - now apply truncate_floor.
Qed.

(** C10: within [0, 255], [rgb_to_grayscale] is nondecreasing in each
    channel. *)
Theorem rgb_to_grayscale_monotone (r r' g g' b b' : Z) :
  0 <= r <= 255 -> 0 <= r' <= 255 -> 0 <= g <= 255 -> 0 <= g' <= 255 ->
  0 <= b <= 255 -> 0 <= b' <= 255 ->
  (r <= r' -> result_le (rgb_to_grayscale r g b) (rgb_to_grayscale r' g b)) /\
  (g <= g' -> result_le (rgb_to_grayscale r g b) (rgb_to_grayscale r g' b)) /\
  (b <= b' -> result_le (rgb_to_grayscale r g b) (rgb_to_grayscale r g b')).
Proof.
  intros Hr Hr' Hg Hg' Hb Hb'. repeat split; intros Hle; apply gray_mono; lia.
Qed.

Lemma rgb_to_grayscale_monotone_witness :
  (0 <= 10 <= 255 /\ 0 <= 11 <= 255 /\ 0 <= 20 <= 255 /\ 0 <= 21 <= 255 /\
   0 <= 30 <= 255 /\ 0 <= 31 <= 255) /\
  (10 <= 11 -> result_le (rgb_to_grayscale 10 20 30) (rgb_to_grayscale 11 20 30)) /\
  (20 <= 21 -> result_le (rgb_to_grayscale 10 20 30) (rgb_to_grayscale 10 21 30)) /\
  (30 <= 31 -> result_le (rgb_to_grayscale 10 20 30) (rgb_to_grayscale 10 20 31)).
Proof.
  split; [lia|]. apply (rgb_to_grayscale_monotone 10 11 20 21 30 31); lia.
Defined.

(** C7: [rgb_to_grayscale] raises [ValueError] exactly when a channel is
    outside [0, 255]; the message names the first offending channel in
    the order r, g, b, and the check precedes the computation. *)
Theorem rgb_to_grayscale_errors (r g b : Z) :
  let ok v := 0 <= v <= 255 in
  let err name := Raise (ValueError (name ++ " must be between 0 and 255")) in
  (~ ok r -> rgb_to_grayscale r g b = err "r"%string) /\
  (ok r -> ~ ok g -> rgb_to_grayscale r g b = err "g"%string) /\
  (ok r -> ok g -> ~ ok b -> rgb_to_grayscale r g b = err "b"%string) /\
  (ok r -> ok g -> ok b -> exists v, rgb_to_grayscale r g b = Ok v) /\
  ((exists msg, rgb_to_grayscale r g b = Raise (ValueError msg)) <->
   ~ (ok r /\ ok g /\ ok b)).
Proof.
  intros ok err. unfold ok, err.
  assert (H1 : ~ 0 <= r <= 255 ->
               rgb_to_grayscale r g b = Raise (ValueError "r must be between 0 and 255")).
  { intros H. unfold rgb_to_grayscale. cbn [check_channels].
    destruct (Z.leb_spec 0 r); destruct (Z.leb_spec r 255); try lia; reflexivity. }
  assert (H2 : 0 <= r <= 255 -> ~ 0 <= g <= 255 ->
               rgb_to_grayscale r g b = Raise (ValueError "g must be between 0 and 255")).
  { intros Hr H. unfold rgb_to_grayscale. cbn [check_channels].
    destruct (Z.leb_spec 0 r); destruct (Z.leb_spec r 255); try lia.
    destruct (Z.leb_spec 0 g); destruct (Z.leb_spec g 255); try lia; reflexivity. }
  assert (H3 : 0 <= r <= 255 -> 0 <= g <= 255 -> ~ 0 <= b <= 255 ->
               rgb_to_grayscale r g b = Raise (ValueError "b must be between 0 and 255")).
  { intros Hr Hg H. unfold rgb_to_grayscale. cbn [check_channels].
    destruct (Z.leb_spec 0 r); destruct (Z.leb_spec r 255); try lia.
    destruct (Z.leb_spec 0 g); destruct (Z.leb_spec g 255); try lia.
    destruct (Z.leb_spec 0 b); destruct (Z.leb_spec b 255); try lia; reflexivity. }
  assert (H4 : 0 <= r <= 255 -> 0 <= g <= 255 -> 0 <= b <= 255 ->
               exists v, rgb_to_grayscale r g b = Ok v).
  { intros Hr Hg Hb. destruct (gray_sem r g b Hr Hg Hb) as (_ & _ & E). eauto. }
  repeat split; try assumption.
  - intros [msg E] (Hr & Hg & Hb). destruct (H4 Hr Hg Hb) as [v Ev]. congruence.
  - intros H.
    destruct (Z_le_gt_dec 0 r); [destruct (Z_le_gt_dec r 255)|];
      try (eexists; apply H1; lia).
    destruct (Z_le_gt_dec 0 g); [destruct (Z_le_gt_dec g 255)|];
      try (eexists; apply H2; lia).
    eexists; apply H3; lia.
Qed.

(** ** Resolution check *)

(** C4: for all integers, zero and negative ones included,
    [is_valid_resolution] raises nothing and returns the boolean
    [width >= min_width and height >= min_height], each minimum being 1
    when not given. *)
Theorem is_valid_resolution_spec (width height : Z) (min_width min_height : option Z) :
  let mw := match min_width with Some v => v | None => 1 end in
  let mh := match min_height with Some v => v | None => 1 end in
  (exists b, is_valid_resolution width height min_width min_height = Ok b /\
             (b = true <-> width >= mw /\ height >= mh)) /\
  (exists b, is_valid_resolution width height None None = Ok b /\
             (b = true <-> width >= 1 /\ height >= 1)).
Proof.
  cbv zeta. unfold is_valid_resolution.
  split; eexists; (split; [reflexivity|]);
    rewrite andb_true_iff, !Z.geb_le; lia.
Qed.

(** ** The repository's test suite on the model

    The assertions of [tests/test_image_utils.py] that compare exact
    values, evaluated on the embedding. *)

Example test_square_ratio : calculate_aspect_ratio 1000 1000 = Ok (to_float 1).
Proof. reflexivity. Qed.

Example test_invalid_width :
  calculate_aspect_ratio 0 100 =
    Raise (ValueError "Width and height must be positive integers").
Proof. reflexivity. Qed.

Example test_invalid_height :
  calculate_aspect_ratio 100 (-1) =
    Raise (ValueError "Width and height must be positive integers").
Proof. reflexivity. Qed.

Example test_no_resize_needed : resize_dimensions 800 600 1000 = Ok (800, 600).
Proof. reflexivity. Qed.

Example test_resize_landscape : resize_dimensions 2000 1000 1000 = Ok (1000, 500).
Proof. reflexivity. Qed.

Example test_resize_portrait : resize_dimensions 1000 2000 1000 = Ok (500, 1000).
Proof. reflexivity. Qed.

Example test_resize_square : resize_dimensions 2000 2000 1000 = Ok (1000, 1000).
Proof. reflexivity. Qed.

Example test_invalid_dimensions :
  resize_dimensions (-100) 100 100 =
    Raise (ValueError "All dimensions must be positive integers").
Proof. reflexivity. Qed.

Example test_white : rgb_to_grayscale 255 255 255 = Ok 254.
Proof. reflexivity. Qed.

Example test_black : rgb_to_grayscale 0 0 0 = Ok 0.
Proof. reflexivity. Qed.

Example test_pure_red :
  rgb_to_grayscale 255 0 0 = int_of_float (fmul lit_0_21 (to_float 255)) /\
  rgb_to_grayscale 255 0 0 = Ok 53.
Proof. split; reflexivity. Qed.

Example test_pure_green :
  rgb_to_grayscale 0 255 0 = int_of_float (fmul lit_0_72 (to_float 255)) /\
  rgb_to_grayscale 0 255 0 = Ok 183.
Proof. split; reflexivity. Qed.

Example test_invalid_value :
  rgb_to_grayscale 256 0 0 = Raise (ValueError "r must be between 0 and 255").
Proof. reflexivity. Qed.

Example test_negative_value :
  rgb_to_grayscale (-1) 0 0 = Raise (ValueError "r must be between 0 and 255").
Proof. reflexivity. Qed.

Example test_valid_resolution : is_valid_resolution 1920 1080 None None = Ok true.
Proof. reflexivity. Qed.

Example test_minimum_resolution : is_valid_resolution 1 1 None None = Ok true.
Proof. reflexivity. Qed.

Example test_zero_width : is_valid_resolution 0 100 None None = Ok false.
Proof. reflexivity. Qed.

Example test_zero_height : is_valid_resolution 100 0 None None = Ok false.
Proof. reflexivity. Qed.

Example test_custom_minimum :
  is_valid_resolution 800 600 (Some 1920) (Some 1080) = Ok false /\
  is_valid_resolution 1920 1080 (Some 1920) (Some 1080) = Ok true.
Proof. split; reflexivity. Qed.

(** * Further properties of the four functions *)

(** ** Canonical floats are determined by their value *)

Lemma finite_value_lt m e m' e' :
  bounded prec emax m e = true -> bounded prec emax m' e' = true -> e < e' ->
  (IZR (Z.pos m) * bpow e < IZR (Z.pos m') * bpow e')%R.
Proof.
  intros Hb Hb' Hlt.
  apply bounded_elim in Hb as (He & Hm & _). apply bounded_elim in Hb' as (He' & _ & Hn').
  specialize (Hn' ltac:(lia)).
  apply IZR_lt in Hm. apply IZR_le in Hn'.
  rewrite <- (bpow_IZR 53) in Hm by lia. rewrite <- (bpow_IZR 52) in Hn' by lia.
  pose proof (bpow_gt_0 e). pose proof (bpow_gt_0 e').
  apply Rlt_le_trans with (bpow 53 * bpow e)%R; [now apply Rmult_lt_compat_r|].
  apply Rle_trans with (bpow 52 * bpow e')%R; [|now apply Rmult_le_compat_r; [lra|]].
  rewrite <- !bpow_add. apply bpow_le. lia.
Qed.

Lemma good_inj f g : good f = true -> good g = true -> SF2R f = SF2R g -> f = g.
Proof.
  destruct f as [[]|[]| |[] m e]; try discriminate;
    destruct g as [[]|[]| |[] m' e']; try discriminate; cbn [good SF2R cond_Zopp];
    intros Hf Hg E; try reflexivity.
  - exfalso. pose proof (bpow_gt_0 e'). assert (0 < IZR (Z.pos m'))%R by izr. nra.
  - exfalso. pose proof (bpow_gt_0 e). assert (0 < IZR (Z.pos m))%R by izr. nra.
  - destruct (Z.lt_total e e') as [Hlt|[Heq|Hgt]].
    + pose proof (finite_value_lt _ _ _ _ Hf Hg Hlt). lra.
    + subst e'. pose proof (bpow_gt_0 e).
      assert (IZR (Z.pos m) = IZR (Z.pos m')) by nra.
      apply eq_IZR in H0. congruence.
    + pose proof (finite_value_lt _ _ _ _ Hg Hf Hgt). lra.
Qed.

Lemma denotes_inj f g V : denotes f V -> denotes g V -> f = g.
Proof.
  intros [(H1 & H2 & H3)|[H1 H2]] [(H1' & H2' & H3')|[H1' H2']]; try lra.
  - apply good_inj; congruence.
  - congruence.
Qed.

(** The quotient float depends only on the exact quotient. *)
Lemma true_quotient_ratio a b c d :
  0 < a -> 0 < b -> 0 < c -> 0 < d -> a * d = c * b ->
  true_quotient a b = true_quotient c d.
Proof.
  intros Ha Hb Hc Hd E.
  destruct (SFdiv_int_spec a b Ha Hb) as (V & HV & HD).
  destruct (SFdiv_int_spec c d Hc Hd) as (V' & HV' & HD').
  assert (Hq : (IZR a / IZR b = IZR c / IZR d)%R).
  { assert (0 < IZR b)%R by izr. assert (0 < IZR d)%R by izr.
    apply (f_equal IZR) in E. rewrite !mult_IZR in E. field_simplify_eq; lra. }
  rewrite Hq in HV. rewrite (rnd_fun _ _ _ HV HV') in HD.
  exact (denotes_inj _ _ _ HD HD').
Qed.

Lemma aspect_ratio_positive w h :
  0 < w -> 0 < h -> calculate_aspect_ratio w h = int_truediv w h.
Proof.
  intros Hw Hh. unfold calculate_aspect_ratio.
  destruct (Z.leb_spec w 0); [lia|]. destruct (Z.leb_spec h 0); [lia|]. reflexivity.
Qed.

(** For positive arguments the outcome is a finite float or an
    [OverflowError], decided by the rounded quotient. *)
Lemma aspect_ratio_cases w h :
  0 < w -> 0 < h ->
  exists V, rnd (IZR w / IZR h) V /\
    (((V < bpow 1024)%R /\ good (true_quotient w h) = true /\
      SF2R (true_quotient w h) = V /\
      calculate_aspect_ratio w h = Ok (true_quotient w h)) \/
     ((bpow 1024 <= V)%R /\
      calculate_aspect_ratio w h =
        Raise (OverflowError "integer division result too large for a float"))).
Proof.
  intros Hw Hh. rewrite (aspect_ratio_positive w h Hw Hh).
  destruct (true_quotient_spec w h Hw Hh) as (V & HV & Hfin & Hinf).
  exists V. split; [assumption|].
  destruct (Rlt_or_le V (bpow 1024)) as [Hlt|Hge].
  - left. destruct (Hfin Hlt) as (Hg & E & Hd). auto.
  - right. auto.
Qed.

(** ** Aspect ratio: further properties *)

(** X1: the aspect ratio does not depend on the resolution scale:
    multiplying both sides by the same positive integer gives the
    identical outcome, float or exception. *)
Theorem aspect_ratio_scale_invariant (width height k : Z) :
  0 < width -> 0 < height -> 0 < k ->
  calculate_aspect_ratio (k * width) (k * height) = calculate_aspect_ratio width height.
Proof.
  intros Hw Hh Hk.
  rewrite !aspect_ratio_positive by nia. unfold int_truediv.
  destruct (Z.eqb_spec (k * height) 0); [nia|]. destruct (Z.eqb_spec height 0); [lia|].
  rewrite (true_quotient_ratio (k * width) (k * height) width height) by nia.
  reflexivity.
Qed.

Lemma aspect_ratio_scale_invariant_witness :
  (0 < 16 /\ 0 < 9 /\ 0 < 120) /\
  calculate_aspect_ratio (120 * 16) (120 * 9) = calculate_aspect_ratio 16 9.
Proof. split; [lia|]. apply (aspect_ratio_scale_invariant 16 9 120); lia. Defined.

(** X2: a width that is an integer multiple [k < 2^53] of the height
    gives exactly the float [k]; a square image gives exactly 1.0. *)
Theorem aspect_ratio_integer_multiple (height k : Z) :
  0 < height -> 0 < k < 2 ^ 53 ->
  calculate_aspect_ratio (k * height) height = Ok (to_float k).
Proof.
  intros Hh Hk.
  destruct (aspect_ratio_cases (k * height) height ltac:(nia) Hh) as (V & HV & Hc).
  assert (Hq : (IZR (k * height) / IZR height = IZR k)%R).
  { assert (0 < IZR height)%R by izr. rewrite mult_IZR. field. lra. }
  rewrite Hq in HV. apply (rnd_id _ _ (format_IZR k ltac:(lia))) in HV. subst V.
  assert (IZR k < bpow 1024)%R.
  { apply Rlt_trans with (bpow 53); [rewrite (bpow_IZR 53) by lia; izr|apply bpow_lt; lia]. }
  destruct Hc as [(_ & Hg & E & ->)|[Hge _]]; [|lra].
  destruct (to_float_exact k ltac:(lia)) as (Hg' & E' & _).
  f_equal. apply good_inj; congruence.
Qed.

Lemma aspect_ratio_integer_multiple_witness :
  (0 < 1080 /\ 0 < 2 < 2 ^ 53) /\
  calculate_aspect_ratio (2 * 1080) 1080 = Ok (to_float 2).
Proof. split; [lia|]. apply (aspect_ratio_integer_multiple 1080 2); lia. Defined.

(** X3: for sides below [2^52] the ratio tells the orientation exactly:
    below 1 for portrait, 1 for square, above 1 for landscape. *)
Theorem aspect_ratio_orientation (width height : Z) :
  0 < width < 2 ^ 52 -> 0 < height < 2 ^ 52 ->
  exists f, calculate_aspect_ratio width height = Ok f /\
    (width < height -> (SF2R f < 1)%R) /\
    (width = height -> SF2R f = 1%R) /\
    (height < width -> (1 < SF2R f)%R).
Proof.
  intros Hw Hh.
  destruct (aspect_ratio_cases width height ltac:(lia) ltac:(lia)) as (V & HV & Hc).
  assert (Hwp : (1 <= IZR width)%R) by izr.
  assert (Hhp : (1 <= IZR height)%R) by izr.
  assert (Hw52 : (IZR width < bpow 52)%R) by (rewrite (bpow_IZR 52) by lia; izr).
  assert (Hh52 : (IZR height < bpow 52)%R) by (rewrite (bpow_IZR 52) by lia; izr).
  set (t := (IZR width / IZR height)%R) in *.
  assert (Ht : (t * IZR height = IZR width)%R) by (unfold t; field; lra).
  assert (Ht0 : (0 < t)%R) by nra.
  assert (Hcap : (V <= IZR (2 ^ 52))%R).
  { apply (rnd_le_format _ _ _ HV (format_IZR (2 ^ 52) ltac:(lia))).
    rewrite <- (bpow_IZR 52) by lia. nra. }
  assert (Hfin : (V < bpow 1024)%R).
  { rewrite <- (bpow_IZR 52) in Hcap by lia. pose proof (bpow_lt 52 1024 ltac:(lia)). lra. }
  destruct Hc as [(_ & Hg & E & Hr)|[Hge _]]; [|lra].
  exists (true_quotient width height). split; [assumption|]. rewrite E. clear Hr E Hg.
  set (eps := bpow (-52)).
  assert (Heps : (0 < eps /\ IZR height * eps < 1)%R).
  { unfold eps. pose proof (bpow_gt_0 (-52)). pose proof (bpow_cancel 52).
    change (- (52)) with (-52) in H0. split; [assumption|nra]. }
  destruct Heps as [He0 He1].
  split; [|split].
  - intros Hlt. assert (IZR width <= IZR height - 1)%R.
    { rewrite <- minus_IZR. izr. }
    assert (HF : format (1 - eps)).
    { exists (2 ^ 52 - 1), (-52). split; [|lia]. fold eps.
      rewrite minus_IZR, <- (bpow_IZR 52) by lia.
      pose proof (bpow_cancel 52). change (- (52)) with (-52) in H0. fold eps in H0.
      rewrite Rmult_minus_distr_r, H0. lra. }
    pose proof (rnd_le_format _ _ _ HV HF ltac:(nra)). lra.
  - intros Heq. subst height.
    assert (t = 1)%R by nra. rewrite H in HV.
    exact (rnd_id _ _ format_one HV).
  - intros Hgt. assert (IZR height + 1 <= IZR width)%R.
    { rewrite <- plus_IZR. izr. }
    assert (HF : format (1 + eps)).
    { exists (2 ^ 52 + 1), (-52). split; [|lia]. fold eps.
      rewrite plus_IZR, <- (bpow_IZR 52) by lia.
      pose proof (bpow_cancel 52). change (- (52)) with (-52) in H0. fold eps in H0.
      rewrite Rmult_plus_distr_r, H0. lra. }
    pose proof (rnd_ge_format _ _ _ HV HF ltac:(nra)). lra.
Qed.

Lemma aspect_ratio_orientation_witness :
  (0 < 1920 < 2 ^ 52 /\ 0 < 1080 < 2 ^ 52) /\
  exists f, calculate_aspect_ratio 1920 1080 = Ok f /\
    (1920 < 1080 -> (SF2R f < 1)%R) /\
    (1920 = 1080 -> SF2R f = 1%R) /\
    (1080 < 1920 -> (1 < SF2R f)%R).
Proof. split; [lia|]. apply (aspect_ratio_orientation 1920 1080); lia. Defined.

(** X4: the ratio is nondecreasing in the width and nonincreasing in
    the height, as long as the larger quotient stays in float range. *)
Theorem aspect_ratio_monotone (width width' height height' : Z) :
  0 < width <= width' -> 0 < height' <= height -> width' < float_limit * height' ->
  exists f f',
    calculate_aspect_ratio width height = Ok f /\
    calculate_aspect_ratio width' height' = Ok f' /\
    (SF2R f <= SF2R f')%R.
Proof.
  intros Hw Hh Hlim.
  destruct (aspect_ratio_cases width height ltac:(lia) ltac:(lia)) as (V & HV & Hc).
  destruct (aspect_ratio_cases width' height' ltac:(lia) ltac:(lia)) as (V' & HV' & Hc').
  assert (H1 : (1 <= IZR width <= IZR width')%R) by (split; izr).
  assert (H2 : (1 <= IZR height' <= IZR height)%R) by (split; izr).
  set (t := (IZR width / IZR height)%R) in *.
  set (t' := (IZR width' / IZR height')%R) in *.
  assert (Ht : (t * IZR height = IZR width)%R) by (unfold t; field; lra).
  assert (Ht' : (t' * IZR height' = IZR width')%R) by (unfold t'; field; lra).
  assert (Ht0 : (0 < t')%R) by nra.
  assert (Hle : (t <= t')%R) by nra.
  assert (Hlt' : (t' < bpow 1024 - bpow 970)%R).
  { rewrite <- IZR_float_limit. apply IZR_lt in Hlim. rewrite mult_IZR in Hlim. nra. }
  pose proof (rnd_lt_limit _ _ HV' Hlt') as HV'fin.
  pose proof (rnd_mono _ _ _ _ Hle HV HV') as HVle.
  destruct Hc as [(_ & _ & E & Hr)|[Hge _]]; [|lra].
  destruct Hc' as [(_ & _ & E' & Hr')|[Hge' _]]; [|lra].
  eexists _, _. split; [eassumption|]. split; [eassumption|]. lra.
Qed.

Lemma aspect_ratio_monotone_witness :
  (0 < 1280 <= 1920 /\ 0 < 1080 <= 1200 /\ 1920 < float_limit * 1080) /\
  exists f f',
    calculate_aspect_ratio 1280 1200 = Ok f /\
    calculate_aspect_ratio 1920 1080 = Ok f' /\
    (SF2R f <= SF2R f')%R.
Proof.
  split; [unfold float_limit; lia|].
  apply (aspect_ratio_monotone 1280 1920 1200 1080); unfold float_limit; lia.
Defined.

(** ** Resize to fit: further properties *)

(** The three outcomes of [resize_dimensions] on positive arguments. *)
Lemma resize_cases w h m :
  0 < w -> 0 < h -> 0 < m ->
  (w <= m /\ h <= m /\ resize_dimensions w h m = Ok (w, h)) \/
  (~ (w <= m /\ h <= m) /\ w < float_limit /\ h < float_limit /\
   resize_dimensions w h m = Ok (scaled_dimensions w h m)) \/
  (~ (w <= m /\ h <= m) /\
   resize_dimensions w h m = Raise (OverflowError "int too large to convert to float")).
Proof.
  intros Hw Hh Hm.
  assert (Hfit : (w <= m /\ h <= m) \/ ~ (w <= m /\ h <= m)) by lia.
  destruct Hfit as [Hfit|Hn].
  - left. rewrite resize_noop by lia. tauto.
  - right. destruct (Z_lt_le_dec w float_limit) as [Hwl|Hwl];
      [destruct (Z_lt_le_dec h float_limit) as [Hhl|Hhl]|].
    + left. rewrite resize_scaled by assumption. tauto.
    + right. rewrite resize_overflow by (try assumption; now right). tauto.
    + right. rewrite resize_overflow by (try assumption; now left). tauto.
Qed.

(** The float behind one component of the scaling branch. *)
Lemma scaled_side w h m z :
  0 < w -> 0 < h -> 0 < m -> ~ (w <= m /\ h <= m) -> 0 <= z < float_limit ->
  let q := true_quotient m (if w >? h then w else h) in
  good q = true /\ good (to_float z) = true /\ rnd (IZR z) (SF2R (to_float z)) /\
  good (fmul (to_float z) q) = true /\
  rnd (SF2R (to_float z) * SF2R q) (SF2R (fmul (to_float z) q)).
Proof.
  intros Hw Hh Hm Hn Hz q.
  pose proof (larger_side w h m) as HL. cbv zeta in HL. discharge HL.
  destruct HL as (HD & _ & _).
  destruct (scale_spec m _ Hm HD) as (Hq & _ & Hq1 & _).
  destruct (to_float_spec z Hz) as (Hg & Hr & _).
  destruct (scaled_component z q Hz Hq Hq1) as (Hgp & Hrp & _).
  auto.
Qed.

Lemma resize_error_cases w h m :
  ((exists msg, resize_dimensions w h m = Raise (ValueError msg)) <->
   w <= 0 \/ h <= 0 \/ m <= 0) /\
  (w <= 0 \/ h <= 0 \/ m <= 0 ->
   resize_dimensions w h m =
     Raise (ValueError "All dimensions must be positive integers")).
Proof.
  assert (Hbad : w <= 0 \/ h <= 0 \/ m <= 0 ->
                 resize_dimensions w h m =
                   Raise (ValueError "All dimensions must be positive integers")).
  { intros H. unfold resize_dimensions.
    destruct (Z.leb_spec w 0); [reflexivity|].
    destruct (Z.leb_spec h 0); [reflexivity|].
    destruct (Z.leb_spec m 0); [reflexivity|]. lia. }
  split; [|assumption]. split.
  - intros [msg E].
    destruct (Z_le_gt_dec w 0); [tauto|]. destruct (Z_le_gt_dec h 0); [tauto|].
    destruct (Z_le_gt_dec m 0); [tauto|]. exfalso.
    destruct (resize_cases w h m) as [(_ & _ & R)|[(_ & _ & _ & R)|(_ & R)]];
      try lia; rewrite R in E; discriminate.
  - intros H. eexists. now apply Hbad.
Qed.

(** X5: [resize_dimensions] raises [ValueError] exactly when one of its
    three arguments is zero or negative, always with the same message;
    positive arguments never produce a [ValueError]. *)
Theorem resize_value_error_iff (width height max_size : Z) :
  ((exists msg, resize_dimensions width height max_size = Raise (ValueError msg)) <->
   width <= 0 \/ height <= 0 \/ max_size <= 0) /\
  (width <= 0 \/ height <= 0 \/ max_size <= 0 ->
   resize_dimensions width height max_size =
     Raise (ValueError "All dimensions must be positive integers")).
Proof. exact (resize_error_cases width height max_size). Qed.

(** X6: for positive arguments below the float limit the returned pair
    is non-negative and keeps the order of the sides: the component of
    the longer side is at least the other, and a square stays square. *)
Theorem resize_keeps_orientation (width height max_size : Z) :
  0 < width < float_limit -> 0 < height < float_limit -> 0 < max_size ->
  exists new_width new_height,
    resize_dimensions width height max_size = Ok (new_width, new_height) /\
    0 <= new_width /\ 0 <= new_height /\
    (height <= width -> new_height <= new_width) /\
    (width <= height -> new_width <= new_height).
Proof.
  intros Hw Hh Hm.
  destruct (resize_cases width height max_size) as [(_ & _ & R)|[(Hn & _ & _ & R)|(Hn & R)]];
    try lia.
  - exists width, height. repeat split; try assumption; lia.
  - rewrite R. unfold scaled_dimensions. eexists _, _. split; [reflexivity|].
    destruct (scaled_side width height max_size width) as (Hq & Gw & Rw & Gpw & Rpw); try lia.
    destruct (scaled_side width height max_size height) as (_ & Gh & Rh & Gph & Rph); try lia.
    pose proof (good_nonneg _ Hq) as Hq0.
    assert (Hmono : forall z z' : Z,
              z <= z' ->
              rnd (IZR z) (SF2R (to_float z)) -> rnd (IZR z') (SF2R (to_float z')) ->
              (SF2R (to_float z) * SF2R (true_quotient max_size
                                  (if width >? height then width else height)) <=
               SF2R (to_float z') * SF2R (true_quotient max_size
                                  (if width >? height then width else height)))%R).
    { intros z z' Hzz Hz Hz'. apply Rmult_le_compat_r; [assumption|].
      eapply rnd_mono; [|exact Hz|exact Hz']. izr. }
    split; [now apply truncate_nonneg|]. split; [now apply truncate_nonneg|].
    split; intros Hle; apply truncate_mono; try assumption.
    + eapply rnd_mono; [|exact Rph|exact Rpw]. now apply Hmono.
    + eapply rnd_mono; [|exact Rpw|exact Rph]. now apply Hmono.
  - exfalso. rewrite resize_scaled in R by lia. discriminate.
Qed.

Lemma resize_keeps_orientation_witness :
  (0 < 1921 < float_limit /\ 0 < 1081 < float_limit /\ 0 < 1000) /\
  exists new_width new_height,
    resize_dimensions 1921 1081 1000 = Ok (new_width, new_height) /\
    0 <= new_width /\ 0 <= new_height /\
    (1081 <= 1921 -> new_height <= new_width) /\
    (1921 <= 1081 -> new_width <= new_height).
Proof.
  split; [unfold float_limit; lia|].
  apply (resize_keeps_orientation 1921 1081 1000); unfold float_limit; lia.
Defined.

(** Both components of the scaling branch fit, for exactly representable
    sides and [max_size] below [2^52]. *)
Lemma scaled_fits w h m :
  0 < w < 2 ^ 53 -> 0 < h < 2 ^ 53 -> 0 < m < 2 ^ 52 -> ~ (w <= m /\ h <= m) ->
  let q := true_quotient m (if w >? h then w else h) in
  0 <= truncate (fmul (to_float w) q) <= m /\ 0 <= truncate (fmul (to_float h) q) <= m.
Proof.
  intros Hw Hh Hm Hn q.
  pose proof (larger_side w h m) as HL. cbv zeta in HL. discharge HL.
  destruct HL as (_ & HDw & HDh).
  pose proof (component_le w h m) as HS. cbv zeta in HS. discharge HS. fold q in HS.
  assert (Hl : 0 <= w < float_limit /\ 0 <= h < float_limit) by (unfold float_limit; lia).
  destruct (scaled_side w h m w) as (_ & _ & _ & Gw & _); try lia.
  destruct (scaled_side w h m h) as (_ & _ & _ & Gh & _); try lia.
  fold q in Gw, Gh.
  repeat split; try (now apply truncate_nonneg); apply HS; lia.
Qed.

(** X7: with sides below [2^53] and [max_size] below [2^52] the result
    always fits: both returned components lie between 0 and
    [max_size]. *)
Theorem resize_fits (width height max_size : Z) :
  0 < width < 2 ^ 53 -> 0 < height < 2 ^ 53 -> 0 < max_size < 2 ^ 52 ->
  exists new_width new_height,
    resize_dimensions width height max_size = Ok (new_width, new_height) /\
    0 <= new_width <= max_size /\ 0 <= new_height <= max_size.
Proof.
  intros Hw Hh Hm.
  assert (Hfit : (width <= max_size /\ height <= max_size) \/
                 ~ (width <= max_size /\ height <= max_size)) by lia.
  destruct Hfit as [Hfit|Hn].
  - exists width, height. rewrite resize_noop by lia. repeat split; lia.
  - rewrite resize_scaled by (unfold float_limit; lia). unfold scaled_dimensions.
    eexists _, _. split; [reflexivity|].
    now apply scaled_fits.
Qed.

Lemma resize_fits_witness :
  (0 < 1000 < 2 ^ 53 /\ 0 < 1 < 2 ^ 53 /\ 0 < 10 < 2 ^ 52) /\
  exists new_width new_height,
    resize_dimensions 1000 1 10 = Ok (new_width, new_height) /\
    0 <= new_width <= 10 /\ 0 <= new_height <= 10.
Proof. split; [lia|]. apply (resize_fits 1000 1 10); lia. Defined.

(** X8: within the same bounds, resizing the result again changes
    nothing when both components are positive, and is rejected with
    [ValueError] when a component has collapsed to 0. *)
Theorem resize_again (width height max_size : Z) :
  0 < width < 2 ^ 53 -> 0 < height < 2 ^ 53 -> 0 < max_size < 2 ^ 52 ->
  exists new_width new_height,
    resize_dimensions width height max_size = Ok (new_width, new_height) /\
    (0 < new_width -> 0 < new_height ->
     resize_dimensions new_width new_height max_size = Ok (new_width, new_height)) /\
    (new_width = 0 \/ new_height = 0 ->
     resize_dimensions new_width new_height max_size =
       Raise (ValueError "All dimensions must be positive integers")).
Proof.
  intros Hw Hh Hm.
  assert (Hfit : (width <= max_size /\ height <= max_size) \/
                 ~ (width <= max_size /\ height <= max_size)) by lia.
  assert (Hgen : forall a b, 0 <= a <= max_size -> 0 <= b <= max_size ->
            (0 < a -> 0 < b -> resize_dimensions a b max_size = Ok (a, b)) /\
            (a = 0 \/ b = 0 ->
             resize_dimensions a b max_size =
               Raise (ValueError "All dimensions must be positive integers"))).
  { intros a b Ha Hb. split.
    - intros Ha0 Hb0. apply resize_noop; lia.
    - intros Hz. unfold resize_dimensions.
      destruct (Z.leb_spec a 0); [reflexivity|].
      destruct (Z.leb_spec b 0); [reflexivity|]. lia. }
  destruct Hfit as [Hfit|Hn].
  - exists width, height. split; [apply resize_noop; lia|]. apply Hgen; lia.
  - rewrite resize_scaled by (unfold float_limit; lia). unfold scaled_dimensions.
    eexists _, _. split; [reflexivity|].
    destruct (scaled_fits width height max_size Hw Hh Hm Hn) as [Ha Hb].
    now apply Hgen.
Qed.

Lemma resize_again_witness :
  (0 < 2000 < 2 ^ 53 /\ 0 < 1000 < 2 ^ 53 /\ 0 < 1000 < 2 ^ 52) /\
  exists new_width new_height,
    resize_dimensions 2000 1000 1000 = Ok (new_width, new_height) /\
    (0 < new_width -> 0 < new_height ->
     resize_dimensions new_width new_height 1000 = Ok (new_width, new_height)) /\
    (new_width = 0 \/ new_height = 0 ->
     resize_dimensions new_width new_height 1000 =
       Raise (ValueError "All dimensions must be positive integers")).
Proof. split; [lia|]. apply (resize_again 2000 1000 1000); lia. Defined.

(** X9: within the same bounds, the input comes back unchanged exactly
    when it already fits. *)
Theorem resize_unchanged_iff_fits (width height max_size : Z) :
  0 < width < 2 ^ 53 -> 0 < height < 2 ^ 53 -> 0 < max_size < 2 ^ 52 ->
  (resize_dimensions width height max_size = Ok (width, height) <->
   width <= max_size /\ height <= max_size).
Proof.
  intros Hw Hh Hm. split.
  - intros E.
    assert (Hfit : (width <= max_size /\ height <= max_size) \/
                   ~ (width <= max_size /\ height <= max_size)) by lia.
    destruct Hfit as [Hfit|Hn]; [assumption|exfalso].
    rewrite resize_scaled in E by (unfold float_limit; lia).
    unfold scaled_dimensions in E.
    destruct (scaled_fits width height max_size Hw Hh Hm Hn) as [Ha Hb].
    injection E as E1 E2. rewrite E1 in Ha. rewrite E2 in Hb. lia.
  - intros Hfit. apply resize_noop; lia.
Qed.

Lemma resize_unchanged_iff_fits_witness :
  (0 < 800 < 2 ^ 53 /\ 0 < 600 < 2 ^ 53 /\ 0 < 1000 < 2 ^ 52) /\
  (resize_dimensions 800 600 1000 = Ok (800, 600) <-> 800 <= 1000 /\ 600 <= 1000).
Proof. split; [lia|]. apply (resize_unchanged_iff_fits 800 600 1000); lia. Defined.

(** X10: for sides below [2^53], a larger [max_size] never yields a
    smaller width or height. *)
Theorem resize_monotone_in_max_size (width height max_size max_size' : Z) :
  0 < width < 2 ^ 53 -> 0 < height < 2 ^ 53 -> 0 < max_size <= max_size' ->
  exists a b a' b',
    resize_dimensions width height max_size = Ok (a, b) /\
    resize_dimensions width height max_size' = Ok (a', b') /\
    a <= a' /\ b <= b'.
Proof.
  intros Hw Hh Hm.
  assert (Hfit : (width <= max_size /\ height <= max_size) \/
                 ~ (width <= max_size /\ height <= max_size)) by lia.
  assert (Hfit' : (width <= max_size' /\ height <= max_size') \/
                  ~ (width <= max_size' /\ height <= max_size')) by lia.
  destruct Hfit as [Hfit|Hn].
  - exists width, height, width, height. rewrite !resize_noop by lia.
    repeat split; lia.
  - rewrite (resize_scaled width height max_size) by (unfold float_limit; lia).
    unfold scaled_dimensions.
    pose proof (component_no_upscale width height max_size) as HU.
    cbv zeta in HU. discharge HU.
    destruct Hfit' as [Hfit'|Hn'].
    + eexists _, _, width, height. rewrite resize_noop by lia.
      split; [reflexivity|]. split; [reflexivity|]. split; apply HU; lia.
    + rewrite (resize_scaled width height max_size') by (unfold float_limit; lia).
      unfold scaled_dimensions. eexists _, _, _, _.
      split; [reflexivity|]. split; [reflexivity|].
      assert (Hl : 0 <= width < float_limit /\ 0 <= height < float_limit)
        by (unfold float_limit; lia).
      pose proof (larger_side width height max_size) as HL. cbv zeta in HL. discharge HL.
      pose proof (larger_side width height max_size') as HL'. cbv zeta in HL'. discharge HL'.
      set (D := if width >? height then width else height) in *.
      destruct (scale_spec max_size D ltac:(lia) ltac:(lia)) as (Hq & Rq & _ & _).
      destruct (scale_spec max_size' D ltac:(lia) ltac:(lia)) as (Hq' & Rq' & _ & _).
      assert (Hqq : (SF2R (true_quotient max_size D) <= SF2R (true_quotient max_size' D))%R).
      { eapply rnd_mono; [|exact Rq|exact Rq'].
        assert (0 < IZR D)%R by izr. assert (IZR max_size <= IZR max_size')%R by izr.
        unfold Rdiv. apply Rmult_le_compat_r; [|assumption].
        apply Rlt_le, Rinv_0_lt_compat. assumption. }
      destruct (scaled_side width height max_size width) as (_ & Gw & _ & Gpw & Rpw); try lia.
      destruct (scaled_side width height max_size height) as (_ & Gh & _ & Gph & Rph); try lia.
      destruct (scaled_side width height max_size' width) as (_ & _ & _ & Gpw' & Rpw'); try lia.
      destruct (scaled_side width height max_size' height) as (_ & _ & _ & Gph' & Rph'); try lia.
      fold D in Gpw, Rpw, Gph, Rph, Gpw', Rpw', Gph', Rph'.
      pose proof (good_nonneg _ Gw). pose proof (good_nonneg _ Gh).
      split; apply truncate_mono; try assumption.
      * eapply rnd_mono; [|exact Rpw|exact Rpw']. now apply Rmult_le_compat_l.
      * eapply rnd_mono; [|exact Rph|exact Rph']. now apply Rmult_le_compat_l.
Qed.

Lemma resize_monotone_in_max_size_witness :
  (0 < 1921 < 2 ^ 53 /\ 0 < 1081 < 2 ^ 53 /\ 0 < 500 <= 1000) /\
  exists a b a' b',
    resize_dimensions 1921 1081 500 = Ok (a, b) /\
    resize_dimensions 1921 1081 1000 = Ok (a', b') /\
    a <= a' /\ b <= b'.
Proof. split; [lia|]. apply (resize_monotone_in_max_size 1921 1081 500 1000); lia. Defined.

(** ** Grayscale: further properties *)

(** The 256 channel values. *)
Definition channel_values : list Z := map Z.of_nat (seq 0 256).

Lemma channel_values_complete v : 0 <= v <= 255 -> In v channel_values.
Proof.
  intros Hv. unfold channel_values. rewrite <- (Z2Nat.id v) by lia.
  apply in_map, in_seq. lia.
Qed.

(** On a gray pixel the result is checked for every channel value. *)
Definition gray_pixel_ok (v : Z) : bool :=
  match rgb_to_grayscale v v v with
  | Ok x => (x =? v) || (x =? v - 1)
  | Raise _ => false
  end.

Lemma gray_pixel_check : forallb gray_pixel_ok channel_values = true.
Proof. vm_compute. reflexivity. Qed.

Lemma gray_pixel v :
  0 <= v <= 255 -> exists x, rgb_to_grayscale v v v = Ok x /\ v - 1 <= x <= v.
Proof.
  intros Hv. pose proof gray_pixel_check as H. rewrite forallb_forall in H.
  specialize (H v (channel_values_complete v Hv)). unfold gray_pixel_ok in H.
  destruct (rgb_to_grayscale v v v) as [x|]; [|discriminate].
  exists x. split; [reflexivity|].
  apply orb_true_iff in H. rewrite !Z.eqb_eq in H. lia.
Qed.

(** X11: a gray pixel [(v, v, v)] maps to [v] or to [v - 1]: the
    weights sum to 1 only up to rounding, and truncation can lose one
    level. *)
Theorem rgb_to_grayscale_gray_pixel (v : Z) :
  0 <= v <= 255 ->
  rgb_to_grayscale v v v = Ok v \/ rgb_to_grayscale v v v = Ok (v - 1).
Proof.
  intros Hv. destruct (gray_pixel v Hv) as (x & E & Hx). rewrite E.
  assert (Hc : x = v \/ x = v - 1) by lia. destruct Hc as [->| ->]; auto.
Qed.

Lemma rgb_to_grayscale_gray_pixel_witness :
  0 <= 5 <= 255 /\
  (rgb_to_grayscale 5 5 5 = Ok 5 \/ rgb_to_grayscale 5 5 5 = Ok (5 - 1)).
Proof. split; [lia|]. apply (rgb_to_grayscale_gray_pixel 5); lia. Defined.

(** X12: the result never exceeds the largest channel and is at most
    one below the smallest. *)
Theorem rgb_to_grayscale_between_channels (r g b : Z) :
  0 <= r <= 255 -> 0 <= g <= 255 -> 0 <= b <= 255 ->
  exists x, rgb_to_grayscale r g b = Ok x /\
            Z.min r (Z.min g b) - 1 <= x <= Z.max r (Z.max g b).
Proof.
  intros Hr Hg Hb.
  set (lo := Z.min r (Z.min g b)). set (hi := Z.max r (Z.max g b)).
  assert (Hlo : 0 <= lo <= 255) by (unfold lo; lia).
  assert (Hhi : 0 <= hi <= 255) by (unfold hi; lia).
  pose proof (gray_mono lo lo lo r g b) as H1.
  pose proof (gray_mono r g b hi hi hi) as H2.
  unfold lo in H1 at 1 2 3. unfold hi in H2 at 1 2 3.
  discharge H1. discharge H2.
  fold lo in H1. fold hi in H2.
  destruct (gray_pixel lo Hlo) as (xl & El & Hxl).
  destruct (gray_pixel hi Hhi) as (xh & Eh & Hxh).
  rewrite El in H1. rewrite Eh in H2.
  destruct (rgb_to_grayscale r g b) as [x|]; [|contradiction].
  exists x. split; [reflexivity|]. cbn [result_le] in H1, H2. lia.
Qed.

Lemma rgb_to_grayscale_between_channels_witness :
  (0 <= 10 <= 255 /\ 0 <= 200 <= 255 /\ 0 <= 30 <= 255) /\
  exists x, rgb_to_grayscale 10 200 30 = Ok x /\
            Z.min 10 (Z.min 200 30) - 1 <= x <= Z.max 10 (Z.max 200 30).
Proof. split; [lia|]. apply (rgb_to_grayscale_between_channels 10 200 30); lia. Defined.

(** ** The validator and the guards of the other functions *)

Lemma aspect_error_cases w h :
  (exists msg, calculate_aspect_ratio w h = Raise (ValueError msg)) <-> w <= 0 \/ h <= 0.
Proof.
  split.
  - intros [msg E].
    destruct (Z_le_gt_dec w 0); [tauto|]. destruct (Z_le_gt_dec h 0); [tauto|]. exfalso.
    destruct (aspect_ratio_cases w h ltac:(lia) ltac:(lia))
      as (V & _ & [(_ & _ & _ & R)|(_ & R)]); rewrite R in E; discriminate.
  - intros H. eexists. unfold calculate_aspect_ratio.
    destruct (Z.leb_spec w 0); [reflexivity|].
    destruct (Z.leb_spec h 0); [reflexivity|]. lia.
Qed.

(** X13: [is_valid_resolution] with its default minimums accepts exactly
    the pairs the other functions accept as dimensions: it returns
    [True] if and only if [calculate_aspect_ratio] raises no
    [ValueError], and, for a positive [max_size], if and only if
    [resize_dimensions] raises none. *)
Theorem valid_resolution_matches_guards (width height max_size : Z) :
  (is_valid_resolution width height None None = Ok true <->
   ~ (exists msg, calculate_aspect_ratio width height = Raise (ValueError msg))) /\
  (0 < max_size ->
   (is_valid_resolution width height None None = Ok true <->
    ~ (exists msg, resize_dimensions width height max_size = Raise (ValueError msg)))).
Proof.
  assert (Hv : is_valid_resolution width height None None = Ok true <->
               0 < width /\ 0 < height).
  { unfold is_valid_resolution. split.
    - intros E. injection E as E. apply andb_true_iff in E. rewrite !Z.geb_le in E. lia.
    - intros H. f_equal. apply andb_true_iff. rewrite !Z.geb_le. lia. }
  split.
  - rewrite Hv, aspect_error_cases. lia.
  - intros Hm. destruct (resize_error_cases width height max_size) as [Hr _].
    rewrite Hv, Hr. lia.
Qed.

(** ** Accuracy, underflow and collapse *)

(** X14: when the exact quotient lies in the normal float range, the
    returned ratio is within a relative error of [2^-53] of it. *)
Theorem aspect_ratio_accuracy (width height : Z) :
  0 < width -> 0 < height ->
  width < float_limit * height -> height <= 2 ^ 1022 * width ->
  exists f, calculate_aspect_ratio width height = Ok f /\
    (Rabs (SF2R f - IZR width / IZR height) <= IZR width / IZR height * bpow (-53))%R.
Proof.
  intros Hw Hh Hup Hlo.
  destruct (aspect_ratio_cases width height Hw Hh) as (V & HV & Hc).
  assert (Hwp : (1 <= IZR width)%R) by izr.
  assert (Hhp : (1 <= IZR height)%R) by izr.
  set (t := (IZR width / IZR height)%R) in *.
  assert (Ht : (t * IZR height = IZR width)%R) by (unfold t; field; lra).
  assert (Hlt : (t < bpow 1024 - bpow 970)%R).
  { rewrite <- IZR_float_limit. apply IZR_lt in Hup. rewrite mult_IZR in Hup. nra. }
  assert (Hnorm : (bpow (-1022) <= t)%R).
  { apply IZR_le in Hlo. rewrite mult_IZR, <- (bpow_IZR 1022) in Hlo by lia.
    pose proof (bpow_cancel 1022). change (- (1022)) with (-1022) in H.
    pose proof (bpow_gt_0 (-1022)). pose proof (bpow_gt_0 1022). nra. }
  pose proof (rnd_lt_limit _ _ HV Hlt) as Hfin.
  destruct Hc as [(_ & _ & E & R)|[Hge _]]; [|lra].
  exists (true_quotient width height). split; [assumption|]. rewrite E.
  destruct (rnd_err _ _ HV Hnorm) as [E1 E2].
  apply Rabs_le. lra.
Qed.

Lemma aspect_ratio_accuracy_witness :
  (0 < 1920 /\ 0 < 1080 /\ 1920 < float_limit * 1080 /\ 1080 <= 2 ^ 1022 * 1920) /\
  exists f, calculate_aspect_ratio 1920 1080 = Ok f /\
    (Rabs (SF2R f - IZR 1920 / IZR 1080) <= IZR 1920 / IZR 1080 * bpow (-53))%R.
Proof.
  split; [unfold float_limit; lia|].
  apply (aspect_ratio_accuracy 1920 1080); unfold float_limit; lia.
Defined.

(** X15: the ratio of two positive sides can underflow: it is [0.0]
    exactly when [height >= 2^1075 * width], and otherwise a strictly
    positive float. *)
Theorem aspect_ratio_underflow (width height : Z) :
  0 < width -> 0 < height -> width < float_limit * height ->
  exists f, calculate_aspect_ratio width height = Ok f /\
    (2 ^ 1075 * width <= height -> f = S754_zero false) /\
    (height < 2 ^ 1075 * width -> (0 < SF2R f)%R).
Proof.
  intros Hw Hh Hup.
  destruct (aspect_ratio_cases width height Hw Hh) as (V & HV & Hc).
  assert (Hwp : (1 <= IZR width)%R) by izr.
  assert (Hhp : (1 <= IZR height)%R) by izr.
  set (t := (IZR width / IZR height)%R) in *.
  assert (Ht : (t * IZR height = IZR width)%R) by (unfold t; field; lra).
  assert (Hlt : (t < bpow 1024 - bpow 970)%R).
  { rewrite <- IZR_float_limit. apply IZR_lt in Hup. rewrite mult_IZR in Hup. nra. }
  pose proof (rnd_lt_limit _ _ HV Hlt) as Hfin.
  destruct Hc as [(_ & Hg & E & R)|[Hge _]]; [|lra].
  exists (true_quotient width height). split; [assumption|].
  destruct HV as (M & e & Hc & Hn & EV).
  destruct (nearest_even_bounds _ _ _ Hc Hn) as [[HM0 _] HM52].
  destruct Hc as (_ & He & _ & Hlo). destruct Hn as [[Hn1 Hn2] Hev].
  pose proof (bpow_cancel 1075) as Hcan. change (- (1075)) with (-1075) in Hcan.
  pose proof (bpow_gt_0 1075). pose proof (bpow_gt_0 (-1075)).
  assert (Hhalf : bpow (-1075) = (bpow (-1074) * / 2)%R).
  { replace (/ 2)%R with (bpow (-1)) by (unfold bpow; simpl; lra).
    rewrite <- bpow_add. reflexivity. }
  pose proof (bpow_gt_0 (-1074)).
  split.
  - intros Hbig. apply IZR_le in Hbig.
    rewrite mult_IZR, <- (bpow_IZR 1075) in Hbig by lia.
    assert (Htiny : (t <= bpow (-1075))%R) by nra.
    assert (e = -1074).
    { destruct (Z.eq_dec e (-1074)) as [|Hne]; [assumption|exfalso].
      specialize (Hlo ltac:(lia)). pose proof (bpow_lt (-1075) (e + 52) ltac:(lia)). lra. }
    subst e. change (- (-1074)) with 1074 in *.
    assert (Hy : (t * bpow 1074 <= / 2)%R).
    { pose proof (bpow_cancel 1074) as Hc4. change (- (1074)) with (-1074) in Hc4.
      pose proof (bpow_gt_0 1074). nra. }
    assert (HM1 : M <= 1).
    { assert (IZR M < IZR 2)%R by lra. apply lt_IZR in H2. lia. }
    assert (M = 0).
    { destruct (Z.eq_dec M 1) as [->|]; [|lia]. exfalso.
      assert (Z.even 1 = true) by (apply Hev; left; lra). discriminate. }
    subst M. rewrite Rmult_0_l in EV.
    apply good_inj; [assumption|reflexivity|]. rewrite E, EV. reflexivity.
  - intros Hsmall. apply IZR_lt in Hsmall.
    rewrite mult_IZR, <- (bpow_IZR 1075) in Hsmall by lia.
    assert (Hnot : (bpow (-1075) < t)%R) by nra.
    rewrite E, EV. apply Rmult_lt_0_compat; [|apply bpow_gt_0].
    apply (IZR_lt 0).
    destruct (Z.eq_dec e (-1074)) as [->|Hne].
    + change (- (-1074)) with 1074 in *.
      assert (Hy : (/ 2 < t * bpow 1074)%R).
      { pose proof (bpow_cancel 1074) as Hc4. change (- (1074)) with (-1074) in Hc4.
        pose proof (bpow_gt_0 1074). nra. }
      assert (IZR 0 < IZR M)%R by lra. now apply lt_IZR.
    + specialize (HM52 ltac:(lia)). lia.
Qed.

Lemma aspect_ratio_underflow_witness :
  (0 < 1 /\ 0 < 2 ^ 1075 /\ 1 < float_limit * 2 ^ 1075) /\
  exists f, calculate_aspect_ratio 1 (2 ^ 1075) = Ok f /\
    (2 ^ 1075 * 1 <= 2 ^ 1075 -> f = S754_zero false) /\
    (2 ^ 1075 < 2 ^ 1075 * 1 -> (0 < SF2R f)%R).
Proof.
  split; [unfold float_limit; lia|].
  apply (aspect_ratio_underflow 1 (2 ^ 1075)); unfold float_limit; lia.
Defined.

(** A side whose exact scaled length is below 1 truncates to 0. *)
Lemma collapse_component z m D :
  0 < m -> m < D < 2 ^ 52 -> 0 <= z -> z * m < D ->
  truncate (fmul (to_float z) (true_quotient m D)) = 0.
Proof.
  intros Hm HD Hz Hzm.
  assert (HzD : z < D) by nia.
  destruct (scale_spec m D Hm ltac:(lia)) as (Hq & Rq & Hq1 & _).
  assert (Hzl : 0 <= z < float_limit) by (unfold float_limit; lia).
  destruct (scaled_component z _ Hzl Hq Hq1) as (Gp & Rp & _).
  destruct (to_float_exact z ltac:(lia)) as (_ & Ez & _). rewrite Ez in Rp.
  set (q := SF2R (true_quotient m D)) in *.
  assert (HDp : (1 <= IZR D)%R) by izr.
  assert (Hmp : (1 <= IZR m)%R) by izr.
  assert (Hzp : (0 <= IZR z)%R) by izr.
  set (X := (IZR m / IZR D)%R) in *.
  assert (HX : (X * IZR D = IZR m)%R) by (unfold X; field; lra).
  assert (HX0 : (0 < X)%R) by nra.
  assert (Hnorm : (bpow (-1022) <= X)%R).
  { assert (IZR D < bpow 1022)%R.
    { rewrite (bpow_IZR 1022) by lia. apply IZR_lt.
      assert (2 ^ 52 < 2 ^ 1022) by (apply Z.pow_lt_mono_r; lia). lia. }
    pose proof (bpow_cancel 1022). pose proof (bpow_gt_0 (-1022)).
    change (- (1022)) with (-1022) in H0. nra. }
  destruct (rnd_err _ _ Rq Hnorm) as [E1 _].
  set (eps := bpow (-53)) in *.
  assert (Heps : (0 < eps /\ 2 * (IZR D * eps) < 1)%R).
  { unfold eps. pose proof (bpow_gt_0 (-53)). split; [assumption|].
    assert (IZR D < bpow 52)%R by (rewrite (bpow_IZR 52) by lia; izr).
    assert (bpow 52 * bpow (-53) = / 2)%R
      by (rewrite <- bpow_add; unfold bpow; simpl; lra).
    nra. }
  destruct Heps as [He0 He1].
  assert (Hzm' : (IZR z * IZR m <= IZR D - 1)%R).
  { rewrite <- mult_IZR, <- minus_IZR. izr. }
  assert (HF : format (1 - eps)).
  { exists (2 ^ 53 - 1), (-53). split; [|lia]. fold eps.
    rewrite minus_IZR, <- (bpow_IZR 53) by lia.
    pose proof (bpow_cancel 53) as Hc. change (- (53)) with (-53) in Hc. fold eps in Hc.
    rewrite Rmult_minus_distr_r, Hc. lra. }
  assert (Hprod : (IZR z * q <= 1 - eps)%R).
  { set (u := (IZR z * X)%R).
    assert (Hu : (u * IZR D = IZR z * IZR m)%R) by (unfold u; rewrite <- HX; ring).
    assert (Hu0 : (0 <= u)%R) by (unfold u; nra).
    assert (Hzq : (IZR z * q <= u * (1 + eps))%R).
    { unfold u. replace (IZR z * X * (1 + eps))%R with (IZR z * (X + X * eps))%R by ring.
      apply Rmult_le_compat_l; lra. }
    assert (Hu1 : (u * (1 + eps) <= 1 - eps)%R).
    { apply Rmult_le_reg_r with (IZR D); [lra|].
      replace (u * (1 + eps) * IZR D)%R with ((u * IZR D) * (1 + eps))%R by ring.
      rewrite Hu. nra. }
    lra. }
  pose proof (rnd_le_format _ _ _ Rp HF Hprod) as Hle.
  pose proof (truncate_nonneg _ Gp).
  pose proof (truncate_le _ 0 Gp ltac:(simpl; lra)). lia.
Qed.

(** X16: for sides below [2^52], a side whose exact scaled length
    [side * max_size / larger_side] is below 1 comes back as 0. *)
Theorem resize_collapses_short_side (width height max_size : Z) :
  0 < width < 2 ^ 52 -> 0 < height < 2 ^ 52 -> 0 < max_size ->
  exists new_width new_height,
    resize_dimensions width height max_size = Ok (new_width, new_height) /\
    (height * max_size < width -> new_height = 0) /\
    (width * max_size < height -> new_width = 0).
Proof.
  intros Hw Hh Hm.
  assert (Hfit : (width <= max_size /\ height <= max_size) \/
                 ~ (width <= max_size /\ height <= max_size)) by lia.
  destruct Hfit as [Hfit|Hn].
  - exists width, height. rewrite resize_noop by lia. split; [reflexivity|]. split; nia.
  - rewrite resize_scaled by (unfold float_limit; lia). unfold scaled_dimensions.
    eexists _, _. split; [reflexivity|].
    destruct (Z.gtb_spec width height) as [Hgt|Hle]; split; intros Hc; try nia.
    + apply collapse_component; lia.
    + apply collapse_component; nia.
Qed.

Lemma resize_collapses_short_side_witness :
  (0 < 1000 < 2 ^ 52 /\ 0 < 1 < 2 ^ 52 /\ 0 < 10) /\
  exists new_width new_height,
    resize_dimensions 1000 1 10 = Ok (new_width, new_height) /\
    (1 * 10 < 1000 -> new_height = 0) /\
    (1000 * 10 < 1 -> new_width = 0).
Proof. split; [lia|]. apply (resize_collapses_short_side 1000 1 10); lia. Defined.
